(** * drone-plugin-k8s-client: the watch/event orchestration of plugin.go

    A shallow embedding of [plugin.go] and of [run] in [main.go].  Every Go
    function that touches shared state or the cluster is a program of a small
    free monad [prog]: its instructions are the accesses to the shared
    [watcherStatusMap], the [sync.WaitGroup], the watcher subscriptions, the
    logger and the calls of the Kubernetes client.  Two semantics read the
    same programs: [exec] runs one task to its end, [sched] interleaves the
    main task with the goroutines one instruction at a time. *)

From Stdlib Require Import ZArith String Ascii Lia.
From stdpp Require Import base gmap strings list pretty.

Set Default Proof Using "Type".

(** ** Kubernetes objects, as far as the plugin reads or writes them *)

(** Go's [error]: the message; a nil error is [None] of [option error]. *)
Definition error : Type := string.

Definition errors_New (msg : string) : error := msg.

(** A Go value returned as [(T, error)]. *)
Inductive result (T : Type) : Type :=
| OK (v : T)
| Err (e : error).
Arguments OK {T} v.
Arguments Err {T} e.

(** A Go slice that may be nil: [None] is the nil slice. *)
Definition slice (A : Type) : Type := option (list A).

Definition len {A : Type} (s : slice A) : nat :=
  match s with
  | None => 0
  | Some l => length l
  end.

(** [watch.EventType] is a string type with four known values. *)
Inductive EventType : Type :=
| Added
| Modified
| Deleted
| Error
| OtherType (name : string).

Inductive PullPolicy : Type := PullAlways | PullNever | PullIfNotPresent.

Inductive RestartPolicy : Type :=
| RestartPolicyAlways
| RestartPolicyOnFailure
| RestartPolicyNever.

Inductive PersistentVolumeAccessMode : Type :=
| ReadWriteOnce
| ReadOnlyMany
| ReadWriteMany.

Record EnvVar : Type := { ev_Name : string; ev_Value : string }.

Record VolumeMount : Type := { vm_Name : string; vm_MountPath : string }.

Record SecurityContext : Type := { Privileged : option bool }.

Record Container : Type := {
  c_Name : string;
  c_Image : string;
  c_WorkingDir : string;
  c_Command : slice string;
  c_Args : slice string;
  c_SecurityContext : option SecurityContext;
  c_ImagePullPolicy : PullPolicy;
  c_Env : list EnvVar;
  c_VolumeMounts : list VolumeMount
}.

(** [VolumeSource] with its only used member, the claim of the volume. *)
Record Volume : Type := { v_Name : string; v_ClaimName : option string }.

Record PodSpec : Type := {
  ServiceAccountName : string;
  Containers : list Container;
  ps_RestartPolicy : RestartPolicy;
  Volumes : list Volume;
  ImagePullSecrets : list string
}.

Record ObjectMeta : Type := { Name : string; Labels : gmap string string }.

Record PodTemplateSpec : Type := { t_ObjectMeta : ObjectMeta; t_Spec : PodSpec }.

(** [JobStatus]: the two [int32] counters the job watcher reads. *)
Record JobStatus : Type := { Failed : Z; Succeeded : Z }.

Record Job : Type := {
  j_Kind : string;
  j_APIVersion : string;
  j_ObjectMeta : ObjectMeta;
  j_Template : PodTemplateSpec;
  j_Status : JobStatus
}.

Record Pod : Type := { p_Name : string; p_Phase : string }.

Record PersistentVolumeClaim : Type := {
  pvc_ObjectMeta : ObjectMeta;
  pvc_AccessModes : list PersistentVolumeAccessMode;
  pvc_Requests : gmap string string
}.

(** [runtime.Object]: the payload of an event; a watch error carries a
    [metav1.Status]. *)
Inductive Object : Type :=
| ObjJob (j : Job)
| ObjPod (p : Pod)
| ObjStatus (message : string).

Record Event : Type := { e_Type : EventType; e_Object : Object }.

(** [watch.Interface]: the subscription [wid] and the events its result
    channel delivers until it is stopped or the server closes it. *)
Record Watcher : Type := { wid : nat; ResultChan : list Event }.

(** The [io.ReadCloser] of a log request: what the stream delivers and the
    error [io.Copy] ends with. *)
Record ReadCloser : Type := {
  rid : nat;
  rc_data : string;
  rc_err : option error
}.

Record ListOptions : Type := { lo_Watch : bool; lo_LabelSelector : string }.

Record Plugin : Type := {
  JobName : string;
  Namespace : string;
  Image : string;
  Workspace : string;
  WorkspacePVC : string;
  ServiceAccount : string;
  OriginalCommands : slice string;
  LabelSelector : gmap string string;
  Env : gmap string string
}.

(** ** Constants of the two files *)

Definition JobWatcherStatusKey : string := "job".
Definition PodWatcherStatusKey : string := "pod".
Definition LogWatcherStatusKey : string := "log".
Definition pluginEnvPrefix : string := "PLUGIN_".
Definition droneEnvPrefix : string := "DRONE_".
Definition gracePeriodSeconds : Z := 2.
Definition label : string := "label-name".
Definition labels : gmap string string := {[ label := "labelValue" ]}.

(** ** The instructions of a task *)

Inductive Level : Type := DebugLevel | InfoLevel | WarnLevel | ErrorLevel.

(** A [go] statement names the function it starts. *)
Inductive Goroutine : Type :=
| GoPodEvents (p : Plugin) (watcher : Watcher)
| GoWatchLogs (p : Plugin) (podName : string).

(** The calls of the Kubernetes client, as the call log keeps them. *)
Inductive ApiCall : Type :=
| CallBuildConfig (path : string)
| CallNewForConfig
| CallGetPVC (ns name : string)
| CallCreatePVC (ns : string) (pvc : PersistentVolumeClaim)
| CallDeletePVC (ns name : string) (grace : Z)
| CallCreateJob (ns : string) (job : Job)
| CallDeleteJob (ns name : string) (grace : Z)
| CallWatchJobs (ns : string) (options : ListOptions)
| CallWatchPods (ns : string) (options : ListOptions)
| CallGetLogs (ns podName : string) (follow : bool).

Inductive instr : Type → Type :=
| Logf (l : Level) (format : string) : instr unit
| MapRead (key : string) : instr bool
| MapWrite (key : string) (b : bool) : instr unit
| WgAdd (delta : Z) : instr bool
| WgWait : instr unit
| Stop (w : nat) : instr unit
| Go (g : Goroutine) : instr unit
| RangeMap (m : gmap string string) : instr (list (string * string))
| BuildConfigFromFlags (path : string) : instr (option error)
| NewForConfig : instr (option error)
| GetPVC (ns name : string) : instr (result PersistentVolumeClaim)
| CreatePVC (ns : string) (pvc : PersistentVolumeClaim)
    : instr (result PersistentVolumeClaim)
| DeletePVCCall (ns name : string) (grace : Z) : instr (option error)
| CreateJobCall (ns : string) (job : Job) : instr (result Job)
| DeleteJobCall (ns name : string) (grace : Z) : instr (option error)
| WatchJobs (ns : string) (options : ListOptions) : instr (result Watcher)
| WatchPods (ns : string) (options : ListOptions) : instr (result Watcher)
| Stream (ns podName : string) (follow : bool) : instr (result ReadCloser)
| Copy (r : ReadCloser) : instr (Z * option error)
| Close (r : ReadCloser) : instr unit.

(** A task: a tree of instructions.  [ForRange w ch body k] is
    [for event := range ch { body }] over the result channel [ch] of the
    subscription [w]; the body answers [Some r] to return [r] out of the
    loop and [None] to go on. *)
Inductive prog (A : Type) : Type :=
| Ret (a : A)
| Panic (msg : string)
| Vis {X : Type} (i : instr X) (k : X → prog A)
| ForRange {R : Type} (w : nat) (ch : list Event)
    (body : Event → prog (option R)) (k : option R → prog A).
Arguments Ret {A} a.
Arguments Panic {A} msg.
Arguments Vis {A X} i k.
Arguments ForRange {A R} w ch body k.

Fixpoint bind {A B : Type} (p : prog A) (f : A → prog B) : prog B :=
  match p with
  | Ret a => f a
  | Panic msg => Panic msg
  | Vis i k => Vis i (λ x, bind (k x) f)
  | ForRange w ch body k => ForRange w ch body (λ r, bind (k r) f)
  end.

Definition call {X : Type} (i : instr X) : prog X := Vis i Ret.

(** The programs form a monad; stdpp's [x ← p; q] and [p;; q] are its bind. *)
Global Instance prog_ret : MRet prog := @Ret.
Global Instance prog_bind : MBind prog := λ A B f p, bind p f.

(** ** The shared state and the cluster *)

(** What the surroundings of the process answer: the cluster and, for the
    order in which a Go map hands out its entries, the runtime.  The first
    argument of a cluster answer is the number of client calls issued
    before it, so that an answer may change from one call to the next. *)
Record Cluster : Type := {
  k_rangeMap : gmap string string → list (string * string);
  k_buildConfig : nat → string → option error;
  k_newForConfig : nat → option error;
  k_getPVC : nat → string → string → result PersistentVolumeClaim;
  k_createPVC : nat → string → PersistentVolumeClaim
                → result PersistentVolumeClaim;
  k_deletePVC : nat → string → string → option error;
  k_createJob : nat → string → Job → result Job;
  k_deleteJob : nat → string → string → option error;
  k_watchJobs : nat → string → ListOptions → result (list Event);
  k_watchPods : nat → string → ListOptions → result (list Event);
  k_getLogs : nat → string → string → result (string * option error)
}.

Inductive WatchKind : Type := JobsKind | PodsKind.

Global Instance WatchKind_eq_dec : EqDecision WatchKind.
Proof. solve_decision. Defined.

(** A subscription the cluster opened: its kind and how often [Stop] was
    called on it. *)
Record Subscription : Type := { s_kind : WatchKind; s_stops : nat }.

Record World : Type := {
  cluster : Cluster;
  watcherStatusMap : gmap string bool;
  wg : Z;
  subscriptions : list Subscription;
  readers : list bool;
  calls : list ApiCall;
  logs : list (Level * string);
  stdout : list string;
  goroutines : list Goroutine
}.

Definition set_status (f : gmap string bool → gmap string bool) (s : World) : World :=
  {| cluster := cluster s; watcherStatusMap := f (watcherStatusMap s);
     wg := wg s; subscriptions := subscriptions s; readers := readers s;
     calls := calls s; logs := logs s; stdout := stdout s;
     goroutines := goroutines s |}.

Definition set_wg (f : Z → Z) (s : World) : World :=
  {| cluster := cluster s; watcherStatusMap := watcherStatusMap s;
     wg := f (wg s); subscriptions := subscriptions s; readers := readers s;
     calls := calls s; logs := logs s; stdout := stdout s;
     goroutines := goroutines s |}.

Definition set_subscriptions (f : list Subscription → list Subscription)
    (s : World) : World :=
  {| cluster := cluster s; watcherStatusMap := watcherStatusMap s;
     wg := wg s; subscriptions := f (subscriptions s); readers := readers s;
     calls := calls s; logs := logs s; stdout := stdout s;
     goroutines := goroutines s |}.

Definition set_readers (f : list bool → list bool) (s : World) : World :=
  {| cluster := cluster s; watcherStatusMap := watcherStatusMap s;
     wg := wg s; subscriptions := subscriptions s; readers := f (readers s);
     calls := calls s; logs := logs s; stdout := stdout s;
     goroutines := goroutines s |}.

Definition set_calls (f : list ApiCall → list ApiCall) (s : World) : World :=
  {| cluster := cluster s; watcherStatusMap := watcherStatusMap s;
     wg := wg s; subscriptions := subscriptions s; readers := readers s;
     calls := f (calls s); logs := logs s; stdout := stdout s;
     goroutines := goroutines s |}.

Definition set_logs (f : list (Level * string) → list (Level * string))
    (s : World) : World :=
  {| cluster := cluster s; watcherStatusMap := watcherStatusMap s;
     wg := wg s; subscriptions := subscriptions s; readers := readers s;
     calls := calls s; logs := f (logs s); stdout := stdout s;
     goroutines := goroutines s |}.

Definition set_stdout (f : list string → list string) (s : World) : World :=
  {| cluster := cluster s; watcherStatusMap := watcherStatusMap s;
     wg := wg s; subscriptions := subscriptions s; readers := readers s;
     calls := calls s; logs := logs s; stdout := f (stdout s);
     goroutines := goroutines s |}.

Definition set_goroutines (f : list Goroutine → list Goroutine)
    (s : World) : World :=
  {| cluster := cluster s; watcherStatusMap := watcherStatusMap s;
     wg := wg s; subscriptions := subscriptions s; readers := readers s;
     calls := calls s; logs := logs s; stdout := stdout s;
     goroutines := f (goroutines s) |}.

(** The world of a fresh process: the status map as [plugin.go] declares
    it, a zero [WaitGroup]. *)
Definition init_world (k : Cluster) : World :=
  {| cluster := k;
     watcherStatusMap := {[ "job" := false; "pod" := false; "log" := false ]};
     wg := 0; subscriptions := []; readers := []; calls := []; logs := [];
     stdout := []; goroutines := [] |}.

(** How often [Stop] was called on subscription [w]. *)
Definition stops (s : World) (w : nat) : nat :=
  match subscriptions s !! w with
  | Some sub => s_stops sub
  | None => 0
  end.

(** [Stop] closes the result channel (the contract of [watch.Interface]). *)
Definition stopped (s : World) (w : nat) : bool := bool_decide (0 < stops s w).

Definition stop_subscription (sub : Subscription) : Subscription :=
  {| s_kind := s_kind sub; s_stops := S (s_stops sub) |}.

Definition open_watch (kind : WatchKind) (evs : list Event) (s : World)
    : Watcher * World :=
  ({| wid := length (subscriptions s); ResultChan := evs |},
   set_subscriptions (λ l, l ++ [{| s_kind := kind; s_stops := 0 |}]) s).

Definition open_reader (data : string * option error) (s : World)
    : ReadCloser * World :=
  ({| rid := length (readers s); rc_data := data.1; rc_err := data.2 |},
   set_readers (λ l, l ++ [false]) s).

Definition record (c : ApiCall) (s : World) : World :=
  set_calls (λ l, l ++ [c]) s.

(** The end of one instruction, or of a task run alone. *)
Inductive outcome (A : Type) : Type :=
| Done (a : A) (s : World)
| Blocked (s : World)
| Panicked (msg : string) (s : World).
Arguments Done {A} a s.
Arguments Blocked {A} s.
Arguments Panicked {A} msg s.

Definition answer_watch (kind : WatchKind) (r : result (list Event))
    (s : World) : outcome (result Watcher) :=
  match r with
  | OK evs => let '(w, s') := open_watch kind evs s in Done (OK w) s'
  | Err e => Done (Err e) s
  end.

(** One instruction on the shared state.  [WgAdd] answers false, and
    leaves the counter, when the counter would become negative: that is
    where [WaitGroup.Add] panics.  [Wait] blocks while the counter is not
    zero; a Go map answers the zero value for a missing key. *)
Definition perform {X : Type} (i : instr X) (s : World) : outcome X :=
  let t := length (calls s) in
  match i in instr X return outcome X with
  | Logf l format => Done () (set_logs (λ ls, ls ++ [(l, format)]) s)
  | MapRead key => Done (default false (watcherStatusMap s !! key)) s
  | MapWrite key b => Done () (set_status (λ m, <[key := b]> m) s)
  | WgAdd delta =>
      if bool_decide (wg s + delta < 0)%Z
      then Done false s
      else Done true (set_wg (λ n, n + delta)%Z s)
  | WgWait => if bool_decide (wg s = 0%Z) then Done () s else Blocked s
  | Stop w => Done () (set_subscriptions (alter stop_subscription w) s)
  | Go g => Done () (set_goroutines (λ l, l ++ [g]) s)
  | RangeMap m => Done (k_rangeMap (cluster s) m) s
  | BuildConfigFromFlags path =>
      Done (k_buildConfig (cluster s) t path) (record (CallBuildConfig path) s)
  | NewForConfig =>
      Done (k_newForConfig (cluster s) t) (record CallNewForConfig s)
  | GetPVC ns name =>
      Done (k_getPVC (cluster s) t ns name) (record (CallGetPVC ns name) s)
  | CreatePVC ns pvc =>
      Done (k_createPVC (cluster s) t ns pvc) (record (CallCreatePVC ns pvc) s)
  | DeletePVCCall ns name grace =>
      Done (k_deletePVC (cluster s) t ns name)
           (record (CallDeletePVC ns name grace) s)
  | CreateJobCall ns job =>
      Done (k_createJob (cluster s) t ns job) (record (CallCreateJob ns job) s)
  | DeleteJobCall ns name grace =>
      Done (k_deleteJob (cluster s) t ns name)
           (record (CallDeleteJob ns name grace) s)
  | WatchJobs ns options =>
      answer_watch JobsKind (k_watchJobs (cluster s) t ns options)
                   (record (CallWatchJobs ns options) s)
  | WatchPods ns options =>
      answer_watch PodsKind (k_watchPods (cluster s) t ns options)
                   (record (CallWatchPods ns options) s)
  | Stream ns podName follow =>
      let s1 := record (CallGetLogs ns podName follow) s in
      match k_getLogs (cluster s) t ns podName with
      | OK data => let '(r, s2) := open_reader data s1 in Done (OK r) s2
      | Err e => Done (Err e) s1
      end
  | Copy r =>
      Done (Z.of_nat (String.length (rc_data r)), rc_err r)
           (set_stdout (λ o, o ++ [rc_data r]) s)
  | Close r => Done () (set_readers (λ l, <[rid r := true]> l) s)
  end.

(** ** One task run alone *)

Fixpoint exec {A : Type} (p : prog A) (s : World) : outcome A :=
  match p with
  | Ret a => Done a s
  | Panic msg => Panicked msg s
  | Vis i k =>
      match perform i s with
      | Done x s' => exec (k x) s'
      | Blocked s' => Blocked s'
      | Panicked msg s' => Panicked msg s'
      end
  | ForRange w ch body k =>
      (fix loop (evs : list Event) (s : World) {struct evs} : outcome A :=
         match evs with
         | [] => exec (k None) s
         | ev :: evs' =>
             if stopped s w then exec (k None) s
             else match exec (body ev) s with
                  | Done None s' => loop evs' s'
                  | Done (Some r) s' => exec (k (Some r)) s'
                  | Blocked s' => Blocked s'
                  | Panicked msg s' => Panicked msg s'
                  end
         end) ch s
  end.

(** ** plugin.go *)

Definition Debugf (format : string) : prog unit := call (Logf DebugLevel format).
Definition Infof (format : string) : prog unit := call (Logf InfoLevel format).
Definition Warnf (format : string) : prog unit := call (Logf WarnLevel format).
Definition Errorf (format : string) : prog unit := call (Logf ErrorLevel format).

(** [p.Wg.Add(delta)]: panics on a negative counter. *)
Definition Wg_Add (delta : Z) : prog unit :=
  added ← call (WgAdd delta);
  if (added : bool) then Ret ()
  else Panic "sync: negative WaitGroup counter".

(** [p.Wg.Done()] is [Add(-1)]. *)
Definition WgDone : prog unit := Wg_Add (-1).

(** [p] with [cleanup] run before a panic goes on. *)
Fixpoint on_panic {A : Type} (cleanup : prog unit) (p : prog A) : prog A :=
  match p with
  | Ret a => Ret a
  | Panic msg => cleanup;; Panic msg
  | Vis i k => Vis i (λ x, on_panic cleanup (k x))
  | ForRange w ch body k =>
      ForRange w ch (λ ev, on_panic cleanup (body ev))
        (λ r, on_panic cleanup (k r))
  end.

(** [defer cleanup] in front of the rest [p] of a function: [cleanup] runs
    when [p] returns and when it panics, before the panic goes on. *)
Fixpoint defer {A : Type} (cleanup : prog unit) (p : prog A) : prog A :=
  match p with
  | Ret a => cleanup;; Ret a
  | Panic msg => cleanup;; Panic msg
  | Vis i k => Vis i (λ x, defer cleanup (k x))
  | ForRange w ch body k =>
      ForRange w ch (λ ev, on_panic cleanup (body ev))
        (λ r, defer cleanup (k r))
  end.

Definition watchingStatusOn (watcherStatusKey : string) : prog unit :=
  Debugf "Switching on logging status for: [ %s ]";;
  call (MapWrite watcherStatusKey true).

Definition watchingStatusOff (watcherStatusKey : string) : prog unit :=
  Debugf "Switching off logging status for: [ %s ]";;
  call (MapWrite watcherStatusKey false).

Definition watchingStatus (watcherStatusKey : string) : prog bool :=
  call (MapRead watcherStatusKey).

(** [strings.Join([]string{label, p.LabelSelector[label]}, "=")] *)
Definition selector (p : Plugin) : string :=
  String.concat "=" [label; default "" (LabelSelector p !! label)].
Arguments selector : simpl never.

Definition WatchJob (p : Plugin) : prog (result Watcher) :=
  let options := {| lo_Watch := true; lo_LabelSelector := selector p |} in
  r ← call (WatchJobs (Namespace p) options);
  match r with
  | Err err =>
      Errorf "could not watch jobs. err: %s";;
      watchingStatusOff JobWatcherStatusKey;;
      Ret (Err err)
  | OK jobWatcher =>
      watchingStatusOn JobWatcherStatusKey;;
      Debugf "job watcher started";;
      Ret (OK jobWatcher)
  end.

Definition WatchPod (p : Plugin) : prog (result Watcher) :=
  let options := {| lo_Watch := false; lo_LabelSelector := selector p |} in
  r ← call (WatchPods (Namespace p) options);
  match r with
  | Err err =>
      Errorf "could not watch pod. err: %s";;
      watchingStatusOff PodWatcherStatusKey;;
      Ret (Err err)
  | OK podWatcher =>
      watchingStatusOn PodWatcherStatusKey;;
      Debugf "pod watcher started";;
      Ret (OK podWatcher)
  end.

(** [fmt.Sprintf("there are [ %d ] failed pods", failed)] *)
Definition failed_pods_message (failed : Z) : string :=
  "there are [ " +:+ pretty failed +:+ " ] failed pods".

Definition handleJobEvent (p : Plugin) (event : Event) (watcher : Watcher)
    : prog (option error) :=
  match e_Object event with
  | ObjJob payload =>
      Debugf "received JOB event with payload type [ %s ]";;
      match e_Type event with
      | Added =>
          Debugf "job added; name: [ %s ], status: [ %s ], ";;
          Ret None
      | Modified =>
          Debugf "job modified, status: %s";;
          if bool_decide (Failed (j_Status payload) > 0)%Z then
            call (Stop (wid watcher));;
            Ret (Some (errors_New
                         (failed_pods_message (Failed (j_Status payload)))))
          else if bool_decide (Succeeded (j_Status payload) > 0)%Z then
            call (Stop (wid watcher));;
            Ret None
          else
            watched ← watchingStatus PodWatcherStatusKey;
            if (watched : bool) then
              Debugf "pod is already being watched";;
              Ret None
            else
              r ← WatchPod p;
              match r with
              | Err err =>
                  Errorf "could not watch pod";;
                  Ret (Some err)
              | OK podWatcher =>
                  Wg_Add 1;;
                  call (Go (GoPodEvents p podWatcher));;
                  Ret None
              end
      | Deleted =>
          Debugf "job deleted; name: [ %s ]";;
          Debugf "closing the job watcher";;
          call (Stop (wid watcher));;
          Ret None
      | Error =>
          Debugf "job in error, status: [ %s ]";;
          Ret None
      | OtherType _ =>
          Debugf "received (unhandled) event of type: [ %s ]";;
          Ret None
      end
  | _ => Panic "interface conversion: runtime.Object is not *v1.Job"
  end.

Definition handlePodEvent (p : Plugin) (event : Event) (watcher : Watcher)
    : prog unit :=
  match e_Object event with
  | ObjPod payload =>
      match e_Type event with
      | Added =>
          Debugf "pod [ %s ] added, phase: [ %s ]"
      | Modified =>
          Debugf "pod [ %s ] modified, phase: [ %s ]";;
          watched ← watchingStatus LogWatcherStatusKey;
          if (watched : bool) then
            Debugf "logs already being watched"
          else
            call (Go (GoWatchLogs p (p_Name payload)))
      | Error =>
          Debugf "pod in error, phase: [ %s ]"
      | Deleted =>
          Debugf "pod [ %s] deleted";;
          Debugf "closing the pod watcher";;
          call (Stop (wid watcher));;
          watchingStatusOff PodWatcherStatusKey
      | OtherType _ =>
          Debugf "received (unhandled) event of type: [ %s ]"
      end
  | _ => Panic "interface conversion: runtime.Object is not *v1.Pod"
  end.

Definition originalEnvVars (p : Plugin) : prog (list EnvVar) :=
  entries ← call (RangeMap (Env p));
  let originalEnv :=
    foldl (λ (acc : list EnvVar) (kv : string * string),
             if String.prefix pluginEnvPrefix kv.1
                || String.prefix droneEnvPrefix kv.1
             then acc ++ [{| ev_Name := kv.1; ev_Value := kv.2 |}]
             else acc)
          [] entries in
  Debugf "original env passed to the job: %#v";;
  Ret originalEnv.

Definition assembleJob (p : Plugin) : prog (result Job) :=
  let falseVal := false in
  env ← originalEnvVars p;
  let batchJob :=
    {| j_Kind := "Job";
       j_APIVersion := "batch/v1";
       j_ObjectMeta := {| Name := JobName p; Labels := LabelSelector p |};
       j_Template :=
         {| t_ObjectMeta := {| Name := JobName p; Labels := LabelSelector p |};
            t_Spec :=
              {| ServiceAccountName := ServiceAccount p;
                 Containers :=
                   [ {| c_Name := JobName p;
                        c_Image := Image p;
                        c_WorkingDir := Workspace p;
                        c_Command := None;
                        c_Args := None;
                        c_SecurityContext :=
                          Some {| Privileged := Some falseVal |};
                        c_ImagePullPolicy := PullIfNotPresent;
                        c_Env := env;
                        c_VolumeMounts :=
                          [ {| vm_Name := JobName p;
                               vm_MountPath := Workspace p |} ] |} ];
                 ps_RestartPolicy := RestartPolicyNever;
                 Volumes :=
                   [ {| v_Name := JobName p;
                        v_ClaimName := Some (WorkspacePVC p) |} ];
                 ImagePullSecrets := [] |} |};
       j_Status := {| Failed := 0; Succeeded := 0 |} |} in
  Ret (OK batchJob).

Definition set_command (command args : slice string) (c : Container)
    : Container :=
  {| c_Name := c_Name c; c_Image := c_Image c; c_WorkingDir := c_WorkingDir c;
     c_Command := command; c_Args := args;
     c_SecurityContext := c_SecurityContext c;
     c_ImagePullPolicy := c_ImagePullPolicy c; c_Env := c_Env c;
     c_VolumeMounts := c_VolumeMounts c |}.

Definition set_containers (cs : list Container) (job : Job) : Job :=
  let t := j_Template job in
  let ps := t_Spec t in
  {| j_Kind := j_Kind job; j_APIVersion := j_APIVersion job;
     j_ObjectMeta := j_ObjectMeta job;
     j_Template :=
       {| t_ObjectMeta := t_ObjectMeta t;
          t_Spec :=
            {| ServiceAccountName := ServiceAccountName ps;
               Containers := cs;
               ps_RestartPolicy := ps_RestartPolicy ps;
               Volumes := Volumes ps;
               ImagePullSecrets := ImagePullSecrets ps |} |};
     j_Status := j_Status job |}.

Definition DecorateJob (p : Plugin) (job : Job) : prog (result Job) :=
  if bool_decide (OriginalCommands p ≠ None)
     && bool_decide (0 < len (OriginalCommands p)) then
    match Containers (t_Spec (j_Template job)) with
    | [] => Panic "index out of range"
    | container :: others =>
        let container :=
          set_command (Some ["sh"; "-c"]) (OriginalCommands p) container in
        Debugf "set original command: [ %s ] with argument(s): [ %s ]";;
        Ret (OK (set_containers (container :: others) job))
    end
  else Ret (OK job).

Definition CreateJob (p : Plugin) : prog (option error) :=
  r ← assembleJob p;
  match r with
  | Err err => Errorf "could not set up job. error: %s";; Ret (Some err)
  | OK jobToRun =>
      r ← DecorateJob p jobToRun;
      match r with
      | Err err => Errorf "could not decorate job. error: %s";; Ret (Some err)
      | OK jobToRun =>
          r ← call (CreateJobCall (Namespace p) jobToRun);
          match r with
          | Err err =>
              Errorf "could not create job. error: %s";;
              Ret (Some err)
          | OK job =>
              Debugf "created job: [ %s ]";;
              Ret None
          end
      end
  end.

Definition DeleteJob (p : Plugin) : prog (option error) :=
  err ← call (DeleteJobCall (Namespace p) (JobName p) gracePeriodSeconds);
  match err with
  | Some err => Ret (Some err)
  | None => Debugf "deleted job: [ %s ]";; Ret None
  end.

Definition WatchLogs (p : Plugin) (podName : string) : prog unit :=
  r ← call (Stream (Namespace p) podName true);
  match r with
  | Err err =>
      Debugf "could not stream the logs. error: %s";;
      watchingStatusOff LogWatcherStatusKey;;
      Ret ()
  | OK readCloser =>
      defer (call (Close readCloser))
        (Infof "***** streaming the logs for pod [ %s ] *****";;
         watchingStatusOn LogWatcherStatusKey;;
         copied ← call (Copy readCloser);
         Debugf "Bytes written: [ %s ]. error: [ %s ]. ";;
         watchingStatusOff LogWatcherStatusKey;;
         Infof "***** end of the logs for pod [ %s ] *****";;
         WgDone)
  end.

(** The loop of [JobEvents] over the events [evs] of the result channel. *)
Definition job_loop (p : Plugin) (watcher : Watcher) (evs : list Event)
    : prog (option error) :=
  ForRange (wid watcher) evs
    (λ event,
       err ← handleJobEvent p event watcher;
       match err with
       | Some err => Ret (Some err)
       | None => Ret None
       end)
    Ret.

Definition JobEvents (p : Plugin) (watcher : Watcher) : prog (option error) :=
  returned ← job_loop p watcher (ResultChan watcher);
  match returned with
  | Some err => Ret (Some err)
  | None => Debugf "job [%s] succeeded";; Ret None
  end.

(** The loop of [PodEvents]; nothing returns out of it. *)
Definition pod_loop (p : Plugin) (watcher : Watcher) (evs : list Event)
    : prog (option Empty_set) :=
  ForRange (wid watcher) evs
    (λ event, handlePodEvent p event watcher;; Ret None)
    Ret.

Definition PodEvents (p : Plugin) (watcher : Watcher) : prog unit :=
  pod_loop p watcher (ResultChan watcher);;
  Ret ().

Definition CreateOrGetPVC (p : Plugin) : prog (result PersistentVolumeClaim) :=
  r ← call (GetPVC (Namespace p) (WorkspacePVC p));
  match r with
  | OK claim =>
      Debugf "using existing PVC: [ %s ]";;
      Ret (OK claim)
  | Err err =>
      Warnf "error while getting the PVC: [ %s ], error %s;";;
      let pvc :=
        {| pvc_ObjectMeta :=
             {| Name := WorkspacePVC p; Labels := LabelSelector p |};
           pvc_AccessModes := [ReadWriteOnce];
           pvc_Requests := {[ "storage" := "3Gi" ]} |} in
      r ← call (CreatePVC (Namespace p) pvc);
      match r with
      | Err err =>
          Errorf "could not create PVC, error %s";;
          Ret (Err err)
      | OK claim =>
          Debugf "created PVC: [ %s ]";;
          Ret (OK claim)
      end
  end.

Definition DeletePVC (p : Plugin) : prog (option error) :=
  err ← call (DeletePVCCall (Namespace p) (WorkspacePVC p) gracePeriodSeconds);
  match err with
  | Some err =>
      Errorf "could not delete pvc:[ %s ], error: %s";;
      Ret (Some err)
  | None => Debugf "deleted PVC: [ %s ]";; Ret None
  end.

(** The call of [DeletePVC] is commented out in the source. *)
Definition Cleanup (p : Plugin) : prog unit :=
  DeleteJob p;;
  Ret ().

(** What a [go] statement starts. *)
Definition goroutine_body (g : Goroutine) : prog unit :=
  match g with
  | GoPodEvents p watcher => PodEvents p watcher
  | GoWatchLogs p podName => WatchLogs p podName
  end.

(** ** main.go *)

(** [originalCommands]: [oc] is the lookup of PLUGIN_ORIGINAL_COMMANDS in
    the process environment. *)
Definition originalCommands (oc : option string) : slice string :=
  match oc with
  | None => None
  | Some oc => if bool_decide (oc = "") then None else Some [oc]
  end.

(** [run], from the kube config path and the [Plugin] that [main.go] builds
    out of the process environment and the command line: the calls of the
    client and of [plugin.go] with the error lines around them.  The lines
    that only report the environment (the first line of [run] and those of
    [kubeConfigPath], [workspace], [workspacePVC], [jobName],
    [originalCommands] and [pluginEnv]) are logged while these two values
    are built and are not part of it. *)
Definition run (kubeConfigPath : string) (plugin : Plugin)
    : prog (option error) :=
  err ← call (BuildConfigFromFlags kubeConfigPath);
  match err with
  | Some err => Errorf "could not build kubeconfig. err: %s";; Ret (Some err)
  | None =>
  err ← call NewForConfig;
  match err with
  | Some err => Errorf "could not get client set  %s";; Ret (Some err)
  | None =>
  r ← CreateOrGetPVC plugin;
  match r with
  | Err err => Errorf "could not create PVC. err [ %s ]";; Ret (Some err)
  | OK _ =>
  r ← WatchJob plugin;
  match r with
  | Err err => Errorf "could not watch jobs. err [ %s ]";; Ret (Some err)
  | OK jobWatcher =>
  err ← CreateJob plugin;
  match err with
  | Some err => call (Stop (wid jobWatcher));; Ret (Some err)
  | None =>
  err ← JobEvents plugin jobWatcher;
  match err with
  | Some err => Errorf "error encountered: %s";; Ret (Some err)
  | None =>
  call WgWait;;
  Cleanup plugin;;
  Ret None
  end end end end end end.

(** ** The tasks interleaved *)

(** One instruction of a task.  A finished task, a panicked one and a task
    blocked in [Wait] have no step; a [for range] loop takes one step to
    receive the next event or to see the channel closed. *)
Definition step {A : Type} (p : prog A) (s : World) : option (prog A * World) :=
  match p with
  | Ret _ => None
  | Panic _ => None
  | Vis i k =>
      match perform i s with
      | Done x s' => Some (k x, s')
      | Blocked _ => None
      | Panicked msg s' => Some (Panic msg, s')
      end
  | ForRange w ch body k =>
      match ch with
      | [] => Some (k None, s)
      | ev :: evs =>
          if stopped s w then Some (k None, s)
          else Some (bind (body ev)
                       (λ r, match r with
                             | Some r => k (Some r)
                             | None => ForRange w evs body k
                             end), s)
      end
  end.

(** [n] instructions of a task run alone: the rest of the task and the
    state it has reached, when the task has that many steps. *)
Fixpoint steps {A : Type} (n : nat) (p : prog A) (s : World)
    : option (prog A * World) :=
  match n with
  | O => Some (p, s)
  | S n =>
      match step p s with
      | Some (p', s') => steps n p' s'
      | None => None
      end
  end.

(** The process: the shared state, the main task and the goroutines in the
    order of their [go] statements. *)
Record Config : Type := {
  world : World;
  main : prog (option error);
  pool : list (prog unit)
}.

Inductive Task : Type := MainTask | GoTask (n : nat).

Definition is_panic {A : Type} (p : prog A) : bool :=
  match p with
  | Panic _ => true
  | _ => false
  end.

Definition is_ret {A : Type} (p : prog A) : bool :=
  match p with
  | Ret _ => true
  | _ => false
  end.

(** The process is over when [run] returned or any task panicked. *)
Definition over (c : Config) : bool :=
  is_ret (main c) || is_panic (main c) || existsb is_panic (pool c).

(** The goroutines started by the step from [s] to [s']. *)
Definition started (s s' : World) : list (prog unit) :=
  goroutine_body <$> drop (length (goroutines s)) (goroutines s').

Definition sched_step (t : Task) (c : Config) : option Config :=
  if over c then None
  else match t with
       | MainTask =>
           match step (main c) (world c) with
           | Some (p, s') =>
               Some {| world := s'; main := p;
                       pool := pool c ++ started (world c) s' |}
           | None => None
           end
       | GoTask n =>
           match pool c !! n with
           | Some g =>
               match step g (world c) with
               | Some (g', s') =>
                   Some {| world := s'; main := main c;
                           pool := <[n := g']> (pool c)
                                   ++ started (world c) s' |}
               | None => None
               end
           | None => None
           end
       end.

(** A schedule: which task takes the next step. *)
Fixpoint sched (ts : list Task) (c : Config) : option Config :=
  match ts with
  | [] => Some c
  | t :: ts' =>
      match sched_step t c with
      | Some c' => sched ts' c'
      | None => None
      end
  end.

Definition reachable (c0 c : Config) : Prop := ∃ ts, sched ts c0 = Some c.

(** The process at the start of [run]. *)
Definition start (k : Cluster) (kubeConfigPath : string) (plugin : Plugin)
    : Config :=
  {| world := init_world k; main := run kubeConfigPath plugin; pool := [] |}.

(** The subscriptions of kind [kind] on which [Stop] was not called. *)
Definition open_subscription (kind : WatchKind) (sub : Subscription) : bool :=
  bool_decide (s_kind sub = kind) && bool_decide (s_stops sub = 0).

Definition open_watchers (kind : WatchKind) (s : World) : nat :=
  length (filter (λ sub, open_subscription kind sub) (subscriptions s)).

(** The log streams opened and not closed. *)
Definition open_readers (s : World) : nat :=
  length (filter (λ closed : bool, negb closed) (readers s)).

(** [run] got as far as its call of [JobEvents]: the client was built, the
    claim is there, the job subscription [jobWatcher] is open and the job
    was created; [s'] is the world at that point. *)
Definition run_reaches_JobEvents (kubeConfigPath : string) (plugin : Plugin)
    (s : World) (jobWatcher : Watcher) (s' : World) : Prop :=
  ∃ (s1 s2 s3 s4 : World) (claim : PersistentVolumeClaim),
    exec (call (BuildConfigFromFlags kubeConfigPath)) s = Done None s1
    ∧ exec (call NewForConfig) s1 = Done None s2
    ∧ exec (CreateOrGetPVC plugin) s2 = Done (OK claim) s3
    ∧ exec (WatchJob plugin) s3 = Done (OK jobWatcher) s4
    ∧ exec (CreateJob plugin) s4 = Done None s'.

(** The value of the status flag [key], as [watchingStatus] reads it. *)
Definition status (s : World) (key : string) : bool :=
  default false (watcherStatusMap s !! key).

(** A job Modified event that reports neither a failed nor a succeeded
    pod: the event on which the job watcher looks after the pod watcher. *)
Definition qualifying (event : Event) : Prop :=
  ∃ job, event = {| e_Type := Modified; e_Object := ObjJob job |}
         ∧ ¬ (Failed (j_Status job) > 0)%Z
         ∧ ¬ (Succeeded (j_Status job) > 0)%Z.

(** The state apart from the log lines. *)
Definition same_state (s s' : World) : Prop :=
  cluster s' = cluster s
  ∧ watcherStatusMap s' = watcherStatusMap s
  ∧ wg s' = wg s
  ∧ subscriptions s' = subscriptions s
  ∧ readers s' = readers s
  ∧ calls s' = calls s
  ∧ stdout s' = stdout s
  ∧ goroutines s' = goroutines s.

(** A job event that [handleJobEvent] only logs: a job payload and a type
    other than Modified and Deleted. *)
Definition only_logged (event : Event) : Prop :=
  ∃ type job, event = {| e_Type := type; e_Object := ObjJob job |}
              ∧ type ≠ Modified ∧ type ≠ Deleted.

(** [P] holds of the rest of the task and of the state at every point of
    the run of [p] alone from [s]: at the start and after each of its
    instructions. *)
Definition every_step {A : Type} (p : prog A) (s : World)
    (P : prog A → World → Prop) : Prop :=
  ∀ n q sn, steps n p s = Some (q, sn) → P q sn.

(** The task [q] has a next instruction from [s], and [P] holds of the
    state right after it. *)
Definition next_step {A : Type} (q : prog A) (s : World)
    (P : World → Prop) : Prop :=
  ∃ q' s', step q s = Some (q', s') ∧ P s'.

(** ** Concrete runs

    A cluster that accepts every call, a plugin as [main.go] would build
    it, and the events of the scenarios. *)

Definition scenario_cluster (jobEvents : list Event)
    (podWatch : result (list Event))
    (podLogs : result (string * option error)) : Cluster :=
  {| k_rangeMap := map_to_list;
     k_buildConfig := λ _ _, None;
     k_newForConfig := λ _, None;
     k_getPVC := λ _ _ _, Err "persistentvolumeclaims not found";
     k_createPVC := λ _ _ pvc, OK pvc;
     k_deletePVC := λ _ _ _, None;
     k_createJob := λ _ _ job, OK job;
     k_deleteJob := λ _ _ _, None;
     k_watchJobs := λ _ _ _, OK jobEvents;
     k_watchPods := λ _ _ _, podWatch;
     k_getLogs := λ _ _ _, podLogs |}.

Definition plain_cluster : Cluster :=
  scenario_cluster [] (OK []) (OK ("hello Kubernauts!", None)).

Definition sample_plugin : Plugin :=
  {| JobName := "repository-0-1500000000";
     Namespace := "default";
     Image := "bash";
     Workspace := "/tmp";
     WorkspacePVC := "repository-0-workspace";
     ServiceAccount := "default";
     OriginalCommands := originalCommands (Some "echo 'hello Kubernauts!'");
     LabelSelector := labels;
     Env := {[ "PLUGIN_A" := "x"; "FOO" := "y"; "DRONE_B" := "z" ]} |}.

(** A job as the cluster reports it, with its two counters. *)
Definition reported_job (failed succeeded : Z) : Job :=
  {| j_Kind := "Job";
     j_APIVersion := "batch/v1";
     j_ObjectMeta := {| Name := "repository-0-1500000000"; Labels := labels |};
     j_Template :=
       {| t_ObjectMeta := {| Name := ""; Labels := ∅ |};
          t_Spec := {| ServiceAccountName := ""; Containers := [];
                       ps_RestartPolicy := RestartPolicyNever; Volumes := [];
                       ImagePullSecrets := [] |} |};
     j_Status := {| Failed := failed; Succeeded := succeeded |} |}.

Definition job_event (type : EventType) (failed succeeded : Z) : Event :=
  {| e_Type := type; e_Object := ObjJob (reported_job failed succeeded) |}.

Definition pod_event (type : EventType) (name : string) : Event :=
  {| e_Type := type;
     e_Object := ObjPod {| p_Name := name; p_Phase := "Running" |} |}.

(** The world right after [WatchJob] opened subscription 0. *)
Definition watching_world (k : Cluster) : World :=
  set_status (λ m, <[JobWatcherStatusKey := true]> m)
    (set_subscriptions (λ _, [ {| s_kind := JobsKind; s_stops := 0 |} ])
       (init_world k)).

Definition job_watcher (evs : list Event) : Watcher :=
  {| wid := 0; ResultChan := evs |}.

(** The cluster [k] with another answer to the deletion of a job. *)
Definition with_deleteJob (answer : option error) (k : Cluster) : Cluster :=
  {| k_rangeMap := k_rangeMap k;
     k_buildConfig := k_buildConfig k;
     k_newForConfig := k_newForConfig k;
     k_getPVC := k_getPVC k;
     k_createPVC := k_createPVC k;
     k_deletePVC := k_deletePVC k;
     k_createJob := k_createJob k;
     k_deleteJob := λ _ _ _, answer;
     k_watchJobs := k_watchJobs k;
     k_watchPods := k_watchPods k;
     k_getLogs := k_getLogs k |}.

(** Two pod Modified events for one pod, a log stream that opens. *)
Definition twice_modified : Config :=
  start (scenario_cluster [job_event Modified 0 0]
           (OK [pod_event Modified "pod-1"; pod_event Modified "pod-1"])
           (OK ("hello Kubernauts!", None)))
        "/tmp/.kube/config" sample_plugin.

(** [run] up to its [Wait]; the pod watcher through both events; then each
    of the two log tasks up to its copy. *)
Definition both_streaming : list Task :=
  replicate 27 MainTask ++ replicate 9 (GoTask 0)
  ++ replicate 4 (GoTask 1) ++ replicate 4 (GoTask 2).

(** The first log task to its end, the second through its [Done] and the
    deferred [Close]. *)
Definition both_done : list Task :=
  both_streaming ++ replicate 7 (GoTask 1) ++ replicate 7 (GoTask 2).

(** Two qualifying job events and a pod that is deleted in between. *)
Definition pod_deleted_between : Config :=
  start (scenario_cluster [job_event Modified 0 0; job_event Modified 0 0]
           (OK [pod_event Deleted "pod-1"]) (Err "no logs"))
        "/tmp/.kube/config" sample_plugin.

(** [run] through the first job event; the pod watcher through the Deleted
    event; [run] through the second job event. *)
Definition respawn : list Task :=
  replicate 25 MainTask ++ replicate 7 (GoTask 0) ++ replicate 10 MainTask.

(** The process after the schedule [respawn]. *)
Definition respawned : Config :=
  default pod_deleted_between (sched respawn pod_deleted_between).

(** A job with one container, as [assembleJob] builds it. *)
Definition sample_job : Job :=
  {| j_Kind := "Job";
     j_APIVersion := "batch/v1";
     j_ObjectMeta := {| Name := "repository-0-1500000000"; Labels := labels |};
     j_Template :=
       {| t_ObjectMeta :=
            {| Name := "repository-0-1500000000"; Labels := labels |};
          t_Spec :=
            {| ServiceAccountName := "default";
               Containers :=
                 [ {| c_Name := "repository-0-1500000000";
                      c_Image := "bash";
                      c_WorkingDir := "/tmp";
                      c_Command := None;
                      c_Args := None;
                      c_SecurityContext := Some {| Privileged := Some false |};
                      c_ImagePullPolicy := PullIfNotPresent;
                      c_Env := [];
                      c_VolumeMounts :=
                        [ {| vm_Name := "repository-0-1500000000";
                             vm_MountPath := "/tmp" |} ] |} ];
               ps_RestartPolicy := RestartPolicyNever;
               Volumes :=
                 [ {| v_Name := "repository-0-1500000000";
                      v_ClaimName := Some "repository-0-workspace" |} ];
               ImagePullSecrets := [] |} |};
     j_Status := {| Failed := 0; Succeeded := 0 |} |}.

(** A cluster on which the steps of [run] before [JobEvents] answer as
    given: building the config, building the client, creating the claim,
    opening the job watch and creating the job. *)
Definition setup_cluster (config client claimed : option error)
    (watch : result (list Event)) (created : option error) : Cluster :=
  {| k_rangeMap := map_to_list;
     k_buildConfig := λ _ _, config;
     k_newForConfig := λ _, client;
     k_getPVC := λ _ _ _, Err "persistentvolumeclaims not found";
     k_createPVC := λ _ _ pvc,
       match claimed with Some e => Err e | None => OK pvc end;
     k_deletePVC := λ _ _ _, None;
     k_createJob := λ _ _ job,
       match created with Some e => Err e | None => OK job end;
     k_deleteJob := λ _ _ _, None;
     k_watchJobs := λ _ _ _, watch;
     k_watchPods := λ _ _ _, OK [];
     k_getLogs := λ _ _ _, Err "no logs" |}.

(** ** What a task may do next to the pod flag and the pod watches

    The bookkeeping of the proof that at most one pod subscription is open.
    The main task is [Idle], has [Checked] the pod flag and read false,
    has [Opened] a pod watch, or has [Flagged] it; a goroutine is a pod
    watcher that is [Live], one in the [Window] between its [Stop] and the
    clearing of the flag, one that is [Dead], or any [Other] task. *)
Inductive mode : Type :=
| Idle
| Checked
| Opened (w : nat)
| Flagged (w : nat)
| Other
| Live (w : nat)
| Window (w : nat)
| Dead (w : nat).

Global Instance mode_eq_dec : EqDecision mode.
Proof. solve_decision. Defined.

(** The mode of a task after the instruction [i] answered [x]; [None]
    where the bookkeeping does not allow the instruction. *)
Definition after (m : mode) {X : Type} (i : instr X) : X → option mode :=
  match i in instr X return X → option mode with
  | MapRead key => λ b,
      if bool_decide (key = PodWatcherStatusKey) then
        match m, b with
        | Idle, false => Some Checked
        | _, _ => Some m
        end
      else Some m
  | MapWrite key b => λ _,
      if bool_decide (key = PodWatcherStatusKey) then
        match m, b with
        | Opened w, true => Some (Flagged w)
        | Checked, false => Some Checked
        | Window w, false => Some (Dead w)
        | _, _ => None
        end
      else Some m
  | WatchPods _ _ => λ r,
      match m, r with
      | Checked, OK watcher => Some (Opened (wid watcher))
      | Checked, Err _ => Some Checked
      | _, _ => None
      end
  | Stop w => λ _,
      match m with
      | Live w' => if bool_decide (w = w') then Some (Window w') else Some m
      | _ => Some m
      end
  | Go (GoPodEvents _ watcher) => λ _,
      match m with
      | Flagged w => if bool_decide (wid watcher = w) then Some Idle else None
      | _ => None
      end
  | _ => λ _, Some m
  end.

(** The goroutines an instruction starts. *)
Definition spawned {X : Type} (i : instr X) : list Goroutine :=
  match i with
  | Go g => [g]
  | _ => []
  end.

(** The mode in which a goroutine starts. *)
Definition born (g : Goroutine) : mode :=
  match g with
  | GoPodEvents _ watcher => Live (wid watcher)
  | GoWatchLogs _ _ => Other
  end.

(** [ok m Q p]: from mode [m] the task [p] only takes allowed instructions,
    whatever they answer, and ends in a mode and with a value that satisfy
    [Q].  A loop over the subscription [w] has an invariant on the mode at
    its head; a task that is [Dead w] does not enter the body, its
    subscription being stopped. *)
Fixpoint ok {A : Type} (m : mode) (Q : mode → A → Prop) (p : prog A) : Prop :=
  match p with
  | Ret a => Q m a
  | Panic _ => True
  | Vis i k =>
      ∀ x, match after m i x with
           | Some m' => ok m' Q (k x)
           | None => False
           end
  | ForRange w ch body k =>
      ∃ I : mode → Prop,
        I m
        ∧ (∀ m1, I m1 → ok m1 Q (k None))
        ∧ (∀ m1 ev, I m1 → m1 ≠ Dead w →
             ok m1 (λ m2 r, match r with
                            | None => I m2
                            | Some r => ok m2 Q (k (Some r))
                            end) (body ev))
  end.

Definition claims (m : mode) : bool :=
  match m with
  | Opened _ | Flagged _ | Live _ | Window _ => true
  | _ => false
  end.

Definition main_mode (m : mode) : Prop :=
  match m with
  | Idle | Checked | Opened _ | Flagged _ => True
  | _ => False
  end.

Definition pool_mode (m : mode) : Prop :=
  match m with
  | Other | Live _ | Window _ | Dead _ => True
  | _ => False
  end.

(** The mode a task may have: task 0 is the main task. *)
Definition fits (t : nat) (m : mode) : Prop :=
  match t with
  | 0 => main_mode m
  | S _ => pool_mode m
  end.

(** The modes [ms] of the tasks, the main task first, fit the pod flag and
    the subscriptions: at most one task claims a pod watch, every open pod
    subscription is the one of the task that claims it, and the flag is on
    while a task past the flagging claims one. *)
Record good (flag : bool) (subs : list Subscription) (ms : list mode)
    : Prop := {
  g_fits : ∀ t m, ms !! t = Some m → fits t m;
  g_one : ∀ i j mi mj,
    ms !! i = Some mi → ms !! j = Some mj →
    claims mi = true → claims mj = true → i = j;
  g_owned : ∀ k sub,
    subs !! k = Some sub → open_subscription PodsKind sub = true →
    Opened k ∈ ms ∨ Flagged k ∈ ms ∨ Live k ∈ ms;
  g_checked : Checked ∈ ms → flag = false ∧ ∀ m, m ∈ ms → claims m = false;
  g_flag : ∀ w, Flagged w ∈ ms ∨ Live w ∈ ms ∨ Window w ∈ ms → flag = true;
  g_stopped : ∀ w, Window w ∈ ms ∨ Dead w ∈ ms →
    ∃ sub, subs !! w = Some sub ∧ 0 < s_stops sub;
  g_range : ∀ w, Opened w ∈ ms ∨ Flagged w ∈ ms ∨ Live w ∈ ms →
    w < length subs
}.

(** The invariant of the process. *)
Definition invariant (c : Config) : Prop :=
  ∃ (mm : mode) (pm : list mode),
    good (status (world c) PodWatcherStatusKey) (subscriptions (world c))
         (mm :: pm)
    ∧ ok mm (λ _ _, True) (main c)
    ∧ Forall2 (λ m g, ok m (λ _ _, True) g) pm (pool c).

(** * Properties *)

(** ** Running a task alone *)

Lemma exec_bind {A B : Type} (p : prog A) (f : A → prog B) (s : World) :
  exec (bind p f) s =
  match exec p s with
  | Done a s' => exec (f a) s'
  | Blocked s' => Blocked s'
  | Panicked msg s' => Panicked msg s'
  end.
Proof.
  revert B f s.
  induction p as [A a|A msg|A X i k IH|A R w ch body _ k IHk];
    intros B f s; simpl.
  - done.
  - done.
  - destruct (perform i s); simpl; auto.
  - revert s. induction ch as [|ev evs IHl]; intros s.
    + apply IHk.
    + destruct (stopped s w); [apply IHk|].
      destruct (exec (body ev) s) as [[r|] s'| |]; auto.
Qed.

Lemma exec_mbind {A B : Type} (p : prog A) (f : A → prog B) (s : World) :
  exec (p ≫= f) s =
  match exec p s with
  | Done a s' => exec (f a) s'
  | Blocked s' => Blocked s'
  | Panicked msg s' => Panicked msg s'
  end.
Proof. apply exec_bind. Qed.

Lemma exec_Ret {A : Type} (a : A) (s : World) : exec (Ret a) s = Done a s.
Proof. done. Qed.

Lemma exec_ForRange_cons {A R : Type} (w : nat) (ev : Event)
    (evs : list Event) (body : Event → prog (option R))
    (k : option R → prog A) (s : World) :
  exec (ForRange w (ev :: evs) body k) s =
  if stopped s w then exec (k None) s
  else match exec (body ev) s with
       | Done None s' => exec (ForRange w evs body k) s'
       | Done (Some r) s' => exec (k (Some r)) s'
       | Blocked s' => Blocked s'
       | Panicked msg s' => Panicked msg s'
       end.
Proof. done. Qed.

(** A loop that got through the events [pre] without returning and without
    a [Stop] goes on with the events behind them. *)
Lemma exec_ForRange_app {R : Type} (w : nat) (body : Event → prog (option R))
    (pre rest : list Event) (s s1 : World) :
  exec (ForRange w pre body Ret) s = Done None s1 →
  stopped s1 w = false →
  exec (ForRange w (pre ++ rest) body Ret) s
  = exec (ForRange w rest body Ret) s1.
Proof.
  revert s. induction pre as [|ev pre IH]; intros s Hrun Hopen.
  - simpl in Hrun. by simplify_eq.
  - simpl in Hrun |- *. destruct (stopped s w) eqn:Hs.
    + simplify_eq. congruence.
    + destruct (exec (body ev) s) as [[r|] s'| |]; try done.
      by apply IH.
Qed.

(** A stopped subscription delivers nothing more. *)
Lemma exec_ForRange_stopped {R : Type} (w : nat)
    (body : Event → prog (option R)) (evs : list Event) (s : World) :
  stopped s w = true →
  exec (ForRange w evs body Ret) s = Done None s.
Proof. intros Hs. destruct evs; simpl; [done|]. by rewrite Hs. Qed.

(** ** Subscriptions *)

Lemma stops_after_Stop (s : World) (w : nat) :
  w < length (subscriptions s) →
  stops (set_subscriptions (alter stop_subscription w) s) w = S (stops s w).
Proof.
  intros Hw. unfold stops. simpl. rewrite list_lookup_alter.
  destruct (lookup_lt_is_Some_2 _ _ Hw) as [sub ->].
  by rewrite decide_True.
Qed.

Lemma stopped_false_stops (s : World) (w : nat) :
  stopped s w = false → stops s w = 0.
Proof. unfold stopped. intros H%bool_decide_eq_false. lia. Qed.

Lemma stopped_true_stops (s : World) (w : nat) :
  0 < stops s w → stopped s w = true.
Proof. unfold stopped. intros. by apply bool_decide_eq_true. Qed.

(** ** The failure message *)

Lemma string_app_length (s t : string) :
  String.length (s +:+ t) = String.length s + String.length t.
Proof. induction s; simpl; auto. Qed.

Lemma string_app_inj_r (t s1 s2 : string) : s1 +:+ t = s2 +:+ t → s1 = s2.
Proof.
  revert s2. induction s1 as [|a s1 IH]; intros [|b s2] H; simpl in H.
  - done.
  - apply (f_equal String.length) in H.
    rewrite ?string_app_length in H. simpl in H.
    rewrite ?string_app_length in H. lia.
  - apply (f_equal String.length) in H.
    rewrite ?string_app_length in H. simpl in H.
    rewrite ?string_app_length in H. lia.
  - injection H as -> H. f_equal. by apply IH.
Qed.

Lemma failed_pods_message_inj (f1 f2 : Z) :
  failed_pods_message f1 = failed_pods_message f2 → f1 = f2.
Proof.
  unfold failed_pods_message. intros H.
  apply (inj (String.app _)) in H.
  apply string_app_inj_r in H.
  by apply (inj pretty) in H.
Qed.

(** ** [run] around its call of [JobEvents] *)

Lemma run_from_JobEvents (kubeConfigPath : string) (plugin : Plugin)
    (s : World) (jobWatcher : Watcher) (s' : World) :
  run_reaches_JobEvents kubeConfigPath plugin s jobWatcher s' →
  exec (run kubeConfigPath plugin) s
  = exec (err ← JobEvents plugin jobWatcher;
          match err with
          | Some err => Errorf "error encountered: %s";; Ret (Some err)
          | None => call WgWait;; Cleanup plugin;; Ret None
          end) s'.
Proof.
  intros (s1 & s2 & s3 & s4 & claim & H1 & H2 & H3 & H4 & H5).
  unfold run.
  rewrite exec_mbind, H1, exec_mbind, H2, exec_mbind, H3, exec_mbind, H4.
  by rewrite exec_mbind, H5.
Qed.

Lemma status_insert (s : World) (key : string) (b : bool) :
  status (set_status (λ m, <[key := b]> m) s) key = b.
Proof. unfold status. simpl. by rewrite lookup_insert_eq. Qed.

(** ** Every point of a run *)

Lemma every_step_Ret {A : Type} (a : A) (s : World)
    (P : prog A → World → Prop) :
  P (Ret a) s → every_step (Ret a) s P.
Proof. intros HP [|n] q sn Hn; simpl in Hn; by simplify_eq. Qed.

Lemma every_step_Panic {A : Type} (msg : string) (s : World)
    (P : prog A → World → Prop) :
  P (Panic msg) s → every_step (Panic msg) s P.
Proof. intros HP [|n] q sn Hn; simpl in Hn; by simplify_eq. Qed.

Lemma every_step_Vis {A X : Type} (i : instr X) (k : X → prog A) (x : X)
    (s s' : World) (P : prog A → World → Prop) :
  perform i s = Done x s' →
  P (Vis i k) s →
  every_step (k x) s' P →
  every_step (Vis i k) s P.
Proof.
  intros Hperform HP Hrest [|n] q sn Hn; simpl in Hn.
  - by simplify_eq.
  - rewrite Hperform in Hn. by eapply Hrest.
Qed.

(** One instruction whose answer computes, with [tac] for the property at
    the point before it. *)
Ltac walk tac :=
  eapply every_step_Vis; [cbn; reflexivity | cbv beta; tac | cbn].

(** A run that ends: its steps reach the state [exec] gives. *)
Lemma steps_exec {A : Type} (n : nat) (p : prog A) (a : A) (s s' : World) :
  steps n p s = Some (Ret a, s') → exec p s = Done a s'.
Proof.
  revert p s. induction n as [|n IH]; intros p s Hn; simpl in Hn.
  - by simplify_eq.
  - destruct p as [b|msg|X i k|R w ch body k]; simpl in Hn; try done.
    + destruct (perform i s) as [x s1|s1|msg s1] eqn:Hperform; try done.
      * cbn. rewrite Hperform. by apply IH.
      * apply IH in Hn. cbn in Hn. done.
    + destruct ch as [|ev evs].
      * by apply IH in Hn.
      * rewrite exec_ForRange_cons.
        destruct (stopped s w); [by apply IH in Hn|].
        apply IH in Hn. rewrite exec_bind in Hn.
        destruct (exec (body ev) s) as [[r|] s1|s1|msg s1]; done.
Qed.

(** ** The job watcher *)

(** What [handleJobEvent] does with a Modified event that reports failed
    pods, in any world: one [Stop], two debug lines, the error. *)
Lemma handleJobEvent_failed (p : Plugin) (watcher : Watcher) (job : Job)
    (s : World) :
  (Failed (j_Status job) > 0)%Z →
  exec (handleJobEvent p {| e_Type := Modified; e_Object := ObjJob job |}
          watcher) s
  = Done (Some (errors_New (failed_pods_message (Failed (j_Status job)))))
      (set_subscriptions (alter stop_subscription (wid watcher))
         (set_logs (λ ls, ls ++ [(DebugLevel, "job modified, status: %s")])
            (set_logs
               (λ ls, ls ++ [(DebugLevel,
                              "received JOB event with payload type [ %s ]")])
               s))).
Proof.
  intros Hfailed. unfold handleJobEvent. cbn.
  by rewrite bool_decide_true.
Qed.

(** The same for a Modified event that reports no failed pod and at least
    one succeeded pod: one [Stop], no error. *)
Lemma handleJobEvent_succeeded (p : Plugin) (watcher : Watcher) (job : Job)
    (s : World) :
  ¬ (Failed (j_Status job) > 0)%Z →
  (Succeeded (j_Status job) > 0)%Z →
  exec (handleJobEvent p {| e_Type := Modified; e_Object := ObjJob job |}
          watcher) s
  = Done None
      (set_subscriptions (alter stop_subscription (wid watcher))
         (set_logs (λ ls, ls ++ [(DebugLevel, "job modified, status: %s")])
            (set_logs
               (λ ls, ls ++ [(DebugLevel,
                              "received JOB event with payload type [ %s ]")])
               s))).
Proof.
  intros Hfailed Hsucceeded. unfold handleJobEvent. cbn.
  rewrite bool_decide_false by done. by rewrite bool_decide_true.
Qed.

(** [JobEvents] once the loop got through the events [pre]. *)
Lemma JobEvents_after (p : Plugin) (watcher : Watcher)
    (pre rest : list Event) (s s1 : World) :
  ResultChan watcher = pre ++ rest →
  exec (job_loop p watcher pre) s = Done None s1 →
  stopped s1 (wid watcher) = false →
  exec (JobEvents p watcher) s
  = exec (JobEvents p {| wid := wid watcher; ResultChan := rest |}) s1.
Proof.
  intros Hchan Hpre Hopen. unfold JobEvents.
  rewrite !exec_mbind, Hchan. unfold job_loop in *.
  by rewrite (exec_ForRange_app _ _ _ _ _ _ Hpre Hopen).
Qed.

(** C1: a job Modified event with a failed-pod count above 0, reached by
    the loop of [JobEvents] on a subscription that is still open, makes
    [handleJobEvent] stop the job subscription and return the error
    "there are [ n ] failed pods"; [JobEvents] returns that error; the
    subscription has then been stopped exactly once and nothing was
    spawned or asked of the cluster.  The succeeded count is not looked at
    (no hypothesis on it), and the message determines the count. *)
Theorem C1_failed_event_fails_run (p : Plugin) (watcher : Watcher) (job : Job)
    (pre post : list Event) (s s1 : World) :
  (Failed (j_Status job) > 0)%Z →
  ResultChan watcher
  = pre ++ {| e_Type := Modified; e_Object := ObjJob job |} :: post →
  exec (job_loop p watcher pre) s = Done None s1 →
  wid watcher < length (subscriptions s1) →
  stopped s1 (wid watcher) = false →
  let failure := errors_New (failed_pods_message (Failed (j_Status job))) in
  ∃ s2,
    exec (handleJobEvent p {| e_Type := Modified; e_Object := ObjJob job |}
            watcher) s1 = Done (Some failure) s2
    ∧ exec (JobEvents p watcher) s = Done (Some failure) s2
    ∧ stops s2 (wid watcher) = 1
    ∧ goroutines s2 = goroutines s1
    ∧ calls s2 = calls s1
    ∧ ∀ n : Z, failed_pods_message n = failure → n = Failed (j_Status job).
Proof.
  intros Hfailed Hchan Hpre Hsub Hopen failure.
  eexists. split; [by apply handleJobEvent_failed|].
  split; [|split; [|split; [|split]]].
  - rewrite (JobEvents_after _ _ _ _ _ _ Hchan Hpre Hopen).
    unfold JobEvents, job_loop. rewrite exec_mbind. simpl ResultChan.
    rewrite exec_ForRange_cons. simpl wid.
    rewrite Hopen, exec_mbind, handleJobEvent_failed by done. done.
  - rewrite stops_after_Stop by done. f_equal.
    exact (stopped_false_stops _ _ Hopen).
  - done.
  - done.
  - intros n. apply failed_pods_message_inj.
Qed.

Lemma C1_witness :
  ∃ s2,
    exec (JobEvents sample_plugin
            (job_watcher [job_event Added 0 0; job_event Modified 1 0]))
         (watching_world plain_cluster)
    = Done (Some "there are [ 1 ] failed pods") s2
    ∧ stops s2 0 = 1.
Proof.
  edestruct (C1_failed_event_fails_run sample_plugin
               (job_watcher [job_event Added 0 0; job_event Modified 1 0])
               (reported_job 1 0) [job_event Added 0 0] []
               (watching_world plain_cluster))
    as (s2 & _ & Hrun & Hstops & _).
  - simpl. lia.
  - reflexivity.
  - vm_compute. reflexivity.
  - simpl. lia.
  - reflexivity.
  - exists s2. split; [exact Hrun|exact Hstops].
Defined.

Lemma C2_counterexample :
  (Succeeded (j_Status (reported_job 1 1)) > 0)%Z
  ∧ ∃ s2,
      exec (JobEvents sample_plugin (job_watcher [job_event Modified 1 1]))
           (watching_world plain_cluster)
      = Done (Some "there are [ 1 ] failed pods") s2.
Proof. split; [done|]. eexists. vm_compute. reflexivity. Qed.

(** C2, amended: a job Modified event with a succeeded-pod count above 0
    and a failed-pod count that is not above 0, reached by the loop of
    [JobEvents] on a subscription that is still open, makes
    [handleJobEvent] stop the job subscription and return no error;
    [JobEvents] returns nil without handling the events behind it, the
    subscription has been stopped exactly once, and from that event on
    nothing is spawned and no watch is opened.  When the only event before
    it is an Added event, the whole run spawns nothing and asks nothing of
    the cluster: no pod watcher is ever spawned. *)
Theorem C2_succeeded_event_ends_run (p : Plugin) (watcher : Watcher)
    (job : Job) (pre post : list Event) (s s1 : World) :
  ¬ (Failed (j_Status job) > 0)%Z →
  (Succeeded (j_Status job) > 0)%Z →
  ResultChan watcher
  = pre ++ {| e_Type := Modified; e_Object := ObjJob job |} :: post →
  exec (job_loop p watcher pre) s = Done None s1 →
  wid watcher < length (subscriptions s1) →
  stopped s1 (wid watcher) = false →
  ∃ s2 s3,
    exec (handleJobEvent p {| e_Type := Modified; e_Object := ObjJob job |}
            watcher) s1 = Done None s2
    ∧ stops s2 (wid watcher) = 1
    ∧ exec (JobEvents p watcher) s = Done None s3
    ∧ stops s3 (wid watcher) = 1
    ∧ goroutines s3 = goroutines s1
    ∧ calls s3 = calls s1
    ∧ ∀ added : Job,
        pre = [ {| e_Type := Added; e_Object := ObjJob added |} ] →
        goroutines s3 = goroutines s ∧ calls s3 = calls s.
Proof.
  intros Hfailed Hsucceeded Hchan Hpre Hsub Hopen.
  assert (Hstops : stops
            (set_subscriptions (alter stop_subscription (wid watcher))
               (set_logs (λ ls, ls ++ [(DebugLevel, "job modified, status: %s")])
                  (set_logs
                     (λ ls, ls ++ [(DebugLevel,
                        "received JOB event with payload type [ %s ]")])
                     s1))) (wid watcher) = 1).
  { rewrite stops_after_Stop by done. f_equal.
    exact (stopped_false_stops _ _ Hopen). }
  eexists _, _. split; [by apply handleJobEvent_succeeded|].
  split; [exact Hstops|]. split; [|split; [|split; [|split]]].
  - rewrite (JobEvents_after _ _ _ _ _ _ Hchan Hpre Hopen).
    unfold JobEvents, job_loop. rewrite exec_mbind. simpl ResultChan.
    rewrite exec_ForRange_cons. simpl wid.
    rewrite Hopen, exec_mbind, handleJobEvent_succeeded by done.
    cbv beta iota. rewrite exec_Ret. cbv beta iota.
    rewrite exec_ForRange_stopped.
    + cbn. reflexivity.
    + apply stopped_true_stops. cbn [wid]. rewrite Hstops. lia.
  - exact Hstops.
  - done.
  - done.
  - intros added ->. unfold job_loop in Hpre.
    rewrite exec_ForRange_cons in Hpre.
    destruct (stopped s (wid watcher)).
    + cbn in Hpre. by simplify_eq.
    + cbn in Hpre. by simplify_eq.
Qed.

Lemma C2_witness :
  ∃ s3,
    exec (JobEvents sample_plugin
            (job_watcher [job_event Added 0 0; job_event Modified 0 1]))
         (watching_world plain_cluster)
    = Done None s3
    ∧ stops s3 0 = 1
    ∧ goroutines s3 = []
    ∧ calls s3 = [].
Proof.
  edestruct (C2_succeeded_event_ends_run sample_plugin
               (job_watcher [job_event Added 0 0; job_event Modified 0 1])
               (reported_job 0 1) [job_event Added 0 0] []
               (watching_world plain_cluster))
    as (s2 & s3 & _ & _ & Hrun & Hstops & _ & _ & Hnone).
  - simpl. lia.
  - simpl. lia.
  - reflexivity.
  - vm_compute. reflexivity.
  - simpl. lia.
  - reflexivity.
  - destruct (Hnone (reported_job 0 0) eq_refl) as [Hgo Hcalls].
    exists s3. by repeat split.
Defined.

(** ** Failures of the pod watch and of the log stream *)

Lemma C3_counterexample :
  ∃ s',
    exec (run "/tmp/.kube/config" sample_plugin)
         (init_world (scenario_cluster [job_event Modified 0 0]
                        (Err "pods is forbidden") (Err "no logs")))
    = Done (Some "pods is forbidden") s'.
Proof. eexists. vm_compute. reflexivity. Qed.

(** C3, amended: a log-stream open failure is recovered locally:
    [WatchLogs] logs it (at debug level), clears the log-active flag and
    ends; it returns nothing, it changes neither the WaitGroup nor any
    subscription and spawns nothing.  A pod-subscription open failure is
    logged and the pod-active flag is cleared, but its error is returned by
    [handleJobEvent], by [JobEvents] and by [run], which then ends without
    stopping the job subscription and without cleanup. *)
Theorem C3_open_failures (p : Plugin) (e : error) :
  (∀ (podName : string) (s : World),
     k_getLogs (cluster s) (length (calls s)) (Namespace p) podName = Err e →
     ∃ s',
       exec (WatchLogs p podName) s = Done () s'
       ∧ status s' LogWatcherStatusKey = false
       ∧ logs s' = logs s
                   ++ [(DebugLevel, "could not stream the logs. error: %s");
                       (DebugLevel, "Switching off logging status for: [ %s ]")]
       ∧ wg s' = wg s
       ∧ subscriptions s' = subscriptions s
       ∧ goroutines s' = goroutines s)
  ∧ (∀ (kubeConfigPath : string) (watcher : Watcher) (job : Job)
       (pre post : list Event) (s0 sj s : World),
       run_reaches_JobEvents kubeConfigPath p s0 watcher sj →
       ResultChan watcher
       = pre ++ {| e_Type := Modified; e_Object := ObjJob job |} :: post →
       exec (job_loop p watcher pre) sj = Done None s →
       stopped s (wid watcher) = false →
       ¬ (Failed (j_Status job) > 0)%Z →
       ¬ (Succeeded (j_Status job) > 0)%Z →
       status s PodWatcherStatusKey = false →
       k_watchPods (cluster s) (length (calls s)) (Namespace p)
         {| lo_Watch := false; lo_LabelSelector := selector p |} = Err e →
       ∃ s' s'',
         exec (handleJobEvent p
                 {| e_Type := Modified; e_Object := ObjJob job |} watcher) s
         = Done (Some e) s'
         ∧ exec (JobEvents p watcher) sj = Done (Some e) s'
         ∧ exec (run kubeConfigPath p) s0 = Done (Some e) s''
         ∧ status s'' PodWatcherStatusKey = false
         ∧ (ErrorLevel, "could not watch pod") ∈ logs s''
         ∧ stops s'' (wid watcher) = 0
         ∧ goroutines s'' = goroutines s
         ∧ calls s''
           = calls s
             ++ [CallWatchPods (Namespace p)
                   {| lo_Watch := false; lo_LabelSelector := selector p |}]).
Proof.
  split.
  - intros podName s Hlogs. eexists. split.
    + unfold WatchLogs. cbn. rewrite Hlogs. cbn. reflexivity.
    + split; [apply status_insert|]. simpl.
      by rewrite <- !app_assoc.
  - intros path watcher job pre post s0 sj s Hreach Hchan Hpre Hopen
      Hfailed Hsucceeded Hflag Hwatch.
    assert (Hhandle : ∃ s',
      exec (handleJobEvent p
              {| e_Type := Modified; e_Object := ObjJob job |}
              {| wid := wid watcher;
                 ResultChan := {| e_Type := Modified; e_Object := ObjJob job |}
                               :: post |}) s
      = Done (Some e) s'
      ∧ exec (handleJobEvent p
                {| e_Type := Modified; e_Object := ObjJob job |} watcher) s
        = Done (Some e) s'
      ∧ status s' PodWatcherStatusKey = false
      ∧ (ErrorLevel, "could not watch pod") ∈ logs s'
      ∧ stops s' (wid watcher) = 0
      ∧ goroutines s' = goroutines s
      ∧ calls s'
        = calls s
          ++ [CallWatchPods (Namespace p)
                {| lo_Watch := false; lo_LabelSelector := selector p |}]).
    { unfold status in Hflag. eexists. split; [|split].
      - unfold handleJobEvent. cbn.
        rewrite !bool_decide_false by done. cbn.
        rewrite Hflag. cbn. rewrite Hwatch. cbn. reflexivity.
      - unfold handleJobEvent. cbn.
        rewrite !bool_decide_false by done. cbn.
        rewrite Hflag. cbn. rewrite Hwatch. cbn. reflexivity.
      - split; [apply status_insert|]. simpl.
        split; [set_solver|].
        split; [exact (stopped_false_stops _ _ Hopen)|done]. }
    destruct Hhandle as (s' & Hh' & Hh & Hst & Hlog & Hstops & Hgo & Hcalls).
    assert (HJ : exec (JobEvents p watcher) sj = Done (Some e) s').
    { rewrite (JobEvents_after _ _ _ _ _ _ Hchan Hpre Hopen).
      unfold JobEvents, job_loop. rewrite exec_mbind. simpl ResultChan.
      rewrite exec_ForRange_cons. cbn [wid].
      by rewrite Hopen, exec_mbind, Hh'. }
    exists s', (set_logs (λ ls, ls ++ [(ErrorLevel, "error encountered: %s")]) s').
    split; [done|]. split; [done|]. split.
    { rewrite (run_from_JobEvents _ _ _ _ _ Hreach), exec_mbind, HJ.
      reflexivity. }
    split; [exact Hst|]. split; [simpl; set_solver|].
    split; [exact Hstops|]. split; [exact Hgo|exact Hcalls].
Qed.

Lemma C3_witness :
  (∃ s',
     exec (WatchLogs sample_plugin "pod-1")
          (init_world (scenario_cluster [] (OK []) (Err "no logs")))
     = Done () s'
     ∧ status s' LogWatcherStatusKey = false)
  ∧ (∃ s'',
       exec (run "/tmp/.kube/config" sample_plugin)
            (init_world (scenario_cluster [job_event Modified 0 0]
                           (Err "pods is forbidden") (Err "no logs")))
       = Done (Some "pods is forbidden") s''
       ∧ stops s'' 0 = 0).
Proof.
  split.
  - edestruct (proj1 (C3_open_failures sample_plugin "no logs") "pod-1"
                 (init_world (scenario_cluster [] (OK []) (Err "no logs"))))
      as (s' & Hrun & Hflag & _).
    + reflexivity.
    + exists s'. split; [exact Hrun|exact Hflag].
  - edestruct (proj2 (C3_open_failures sample_plugin "pods is forbidden")
                 "/tmp/.kube/config"
                 (job_watcher [job_event Modified 0 0]) (reported_job 0 0)
                 [] []
                 (init_world (scenario_cluster [job_event Modified 0 0]
                                (Err "pods is forbidden") (Err "no logs"))))
      as (s' & s'' & _ & _ & Hrun & _ & _ & Hstops & _).
    + unfold run_reaches_JobEvents. eexists _, _, _, _, _.
      split; [vm_compute; reflexivity|].
      split; [vm_compute; reflexivity|].
      split; [vm_compute; reflexivity|].
      split; [vm_compute; reflexivity|].
      vm_compute; reflexivity.
    + reflexivity.
    + vm_compute. reflexivity.
    + reflexivity.
    + simpl. lia.
    + simpl. lia.
    + reflexivity.
    + reflexivity.
    + exists s''. split; [exact Hrun|exact Hstops].
Defined.

(** ** The container environment *)

(** The loop of [originalEnvVars] keeps, in order, the entries with one of
    the two prefixes. *)
Lemma originalEnv_foldl (entries : list (string * string)) (acc : list EnvVar) :
  foldl (λ (acc : list EnvVar) (kv : string * string),
           if String.prefix pluginEnvPrefix kv.1
              || String.prefix droneEnvPrefix kv.1
           then acc ++ [{| ev_Name := kv.1; ev_Value := kv.2 |}]
           else acc) acc entries
  = acc ++ ((λ kv, {| ev_Name := kv.1; ev_Value := kv.2 |})
            <$> filter (λ kv, String.prefix pluginEnvPrefix kv.1
                              || String.prefix droneEnvPrefix kv.1)
                       entries).
Proof.
  revert acc. induction entries as [|kv entries IH]; intros acc; cbn [foldl].
  - by rewrite filter_nil, fmap_nil, app_nil_r.
  - rewrite IH, filter_cons. case_decide as Hkeep.
    + apply Is_true_eq_true in Hkeep. rewrite Hkeep.
      by rewrite fmap_cons, <- app_assoc.
    + apply negb_prop_intro, Is_true_eq_true, negb_true_iff in Hkeep.
      by rewrite Hkeep.
Qed.

Lemma exec_originalEnvVars (p : Plugin) (s : World) :
  exec (originalEnvVars p) s
  = Done ((λ kv, {| ev_Name := kv.1; ev_Value := kv.2 |})
          <$> filter (λ kv, String.prefix pluginEnvPrefix kv.1
                            || String.prefix droneEnvPrefix kv.1)
                     (k_rangeMap (cluster s) (Env p)))
         (set_logs
            (λ ls, ls ++ [(DebugLevel, "original env passed to the job: %#v")])
            s).
Proof. unfold originalEnvVars. cbn. by rewrite originalEnv_foldl. Qed.

(** C7: when the runtime hands out every entry of the plugin's environment
    map once, in whatever order, [originalEnvVars] returns, without
    repetition, exactly the entries whose key starts with "PLUGIN_" or
    with "DRONE_", each with its value; for the map
    {PLUGIN_A:x, FOO:y, DRONE_B:z} the result is a permutation of
    [PLUGIN_A:x; DRONE_B:z]. *)
Theorem C7_container_environment (p : Plugin) (s : World) :
  k_rangeMap (cluster s) (Env p) ≡ₚ map_to_list (Env p) →
  ∃ env s',
    exec (originalEnvVars p) s = Done env s'
    ∧ NoDup env
    ∧ (∀ key val : string,
         {| ev_Name := key; ev_Value := val |} ∈ env
         ↔ Env p !! key = Some val
           ∧ (String.prefix "PLUGIN_" key = true
              ∨ String.prefix "DRONE_" key = true))
    ∧ (Env p = {[ "PLUGIN_A" := "x"; "FOO" := "y"; "DRONE_B" := "z" ]} →
       env ≡ₚ [ {| ev_Name := "PLUGIN_A"; ev_Value := "x" |};
                {| ev_Name := "DRONE_B"; ev_Value := "z" |} ]).
Proof.
  intros Horder. eexists _, _. split; [apply exec_originalEnvVars|].
  split; [|split].
  - apply NoDup_fmap_2.
    + intros [k1 v1] [k2 v2] Heq. simpl in Heq. by simplify_eq.
    + apply NoDup_filter. rewrite Horder. apply NoDup_map_to_list.
  - intros key val. rewrite list_elem_of_fmap. split.
    + intros ([k v] & Heq & Hin). simpl in Heq. simplify_eq.
      apply list_elem_of_filter in Hin as [Hkeep Hin]. simpl in Hkeep.
      rewrite Horder in Hin. apply elem_of_map_to_list in Hin.
      split; [done|]. apply orb_prop_elim in Hkeep.
      destruct Hkeep as [H|H]; apply Is_true_eq_true in H; auto.
    + intros [Hlookup Hprefix]. exists (key, val). split; [done|].
      apply list_elem_of_filter. split.
      * simpl. apply orb_prop_intro.
        destruct Hprefix as [H|H]; [left|right]; by apply Is_true_eq_left.
      * rewrite Horder. by apply elem_of_map_to_list.
  - intros Henv. rewrite Horder, Henv. vm_compute.
    apply Permutation_swap.
Qed.

Lemma C7_witness :
  ∃ env s',
    exec (originalEnvVars sample_plugin) (init_world plain_cluster)
    = Done env s'
    ∧ env ≡ₚ [ {| ev_Name := "PLUGIN_A"; ev_Value := "x" |};
               {| ev_Name := "DRONE_B"; ev_Value := "z" |} ].
Proof.
  destruct (C7_container_environment sample_plugin (init_world plain_cluster))
    as (env & s' & Hrun & _ & _ & Hexample).
  - reflexivity.
  - exists env, s'. split; [exact Hrun|]. apply Hexample. reflexivity.
Defined.

(** ** The storage claim *)

(** C8: [CreateOrGetPVC] looks the claim up; when the lookup succeeds it
    returns the claim found, with no error and no other call; on any
    lookup error it issues exactly one create call, for a claim with the
    3Gi storage request and the ReadWriteOnce access mode, and returns
    what the creation answers: the created claim or the creation error. *)
Theorem C8_get_or_create_claim (p : Plugin) (s : World) :
  let lookup := CallGetPVC (Namespace p) (WorkspacePVC p) in
  let pvc :=
    {| pvc_ObjectMeta := {| Name := WorkspacePVC p; Labels := LabelSelector p |};
       pvc_AccessModes := [ReadWriteOnce];
       pvc_Requests := {[ "storage" := "3Gi" ]} |} in
  match k_getPVC (cluster s) (length (calls s))
          (Namespace p) (WorkspacePVC p) with
  | OK existing =>
      ∃ s', exec (CreateOrGetPVC p) s = Done (OK existing) s'
            ∧ calls s' = calls s ++ [lookup]
  | Err _ =>
      ∃ s', exec (CreateOrGetPVC p) s
            = Done (k_createPVC (cluster s) (S (length (calls s)))
                      (Namespace p) pvc) s'
            ∧ calls s' = calls s ++ [lookup; CallCreatePVC (Namespace p) pvc]
  end.
Proof.
  intros lookup pvc.
  destruct (k_getPVC _ _ _ _) as [existing|e] eqn:Hget.
  - eexists. unfold CreateOrGetPVC. cbn. rewrite Hget. cbn. done.
  - unfold CreateOrGetPVC. cbn. rewrite Hget. cbn.
    rewrite length_app, Nat.add_1_r. fold pvc.
    destruct (k_createPVC _ _ _ _) as [created|e'] eqn:Hcreate.
    + eexists. split; [done|]. simpl. by rewrite <- app_assoc.
    + eexists. split; [done|]. simpl. by rewrite <- app_assoc.
Qed.


(** ** The workload description *)

(** Without an override command [DecorateJob] hands the job back. *)
Lemma exec_DecorateJob_plain (p : Plugin) (job : Job) (s : World) :
  len (OriginalCommands p) = 0 →
  exec (DecorateJob p job) s = Done (OK job) s.
Proof.
  intros Hlen. unfold DecorateJob.
  rewrite (bool_decide_false (0 < len (OriginalCommands p))) by lia.
  by rewrite andb_false_r.
Qed.

(** With one it rewrites the first container. *)
Lemma exec_DecorateJob_command (p : Plugin) (job : Job) (c : Container)
    (cs : list Container) (s : World) :
  0 < len (OriginalCommands p) →
  Containers (t_Spec (j_Template job)) = c :: cs →
  exec (DecorateJob p job) s
  = Done (OK (set_containers
                (set_command (Some ["sh"; "-c"]) (OriginalCommands p) c :: cs)
                job))
         (set_logs
            (λ ls, ls ++ [(DebugLevel,
               "set original command: [ %s ] with argument(s): [ %s ]")])
            s).
Proof.
  intros Hlen Hcs. unfold DecorateJob.
  rewrite (bool_decide_true (0 < len (OriginalCommands p))) by lia.
  rewrite bool_decide_true
    by (destruct (OriginalCommands p); [done|simpl in Hlen; lia]).
  by rewrite Hcs.
Qed.

(** C9: the job that [CreateJob] assembles, decorates and submits has one
    container, restart policy Never, pull policy IfNotPresent, a security
    context that is not privileged, one volume, bound to the storage claim
    and mounted at the working directory, and its container has the
    command ["sh"; "-c"] with the override commands as arguments exactly
    when an override command was supplied; without one, command and
    arguments stay unset. *)
Theorem C9_workload_description (p : Plugin) (s : World) :
  ∃ (assembled job : Job) (c : Container) (s1 s2 s3 : World),
    exec (assembleJob p) s = Done (OK assembled) s1
    ∧ exec (DecorateJob p assembled) s1 = Done (OK job) s2
    ∧ exec (CreateJob p) s
      = Done match k_createJob (cluster s) (length (calls s))
                     (Namespace p) job with
             | OK _ => None
             | Err err => Some err
             end s3
    ∧ calls s3 = calls s ++ [CallCreateJob (Namespace p) job]
    ∧ Containers (t_Spec (j_Template job)) = [c]
    ∧ ps_RestartPolicy (t_Spec (j_Template job)) = RestartPolicyNever
    ∧ c_ImagePullPolicy c = PullIfNotPresent
    ∧ c_SecurityContext c = Some {| Privileged := Some false |}
    ∧ Volumes (t_Spec (j_Template job))
      = [ {| v_Name := JobName p; v_ClaimName := Some (WorkspacePVC p) |} ]
    ∧ c_VolumeMounts c
      = [ {| vm_Name := JobName p; vm_MountPath := Workspace p |} ]
    ∧ c_WorkingDir c = Workspace p
    ∧ (0 < len (OriginalCommands p) →
       c_Command c = Some ["sh"; "-c"] ∧ c_Args c = OriginalCommands p)
    ∧ (len (OriginalCommands p) = 0 → c_Command c = None ∧ c_Args c = None)
    ∧ (∀ oc : option string,
         OriginalCommands p = originalCommands oc →
         (c_Command c = Some ["sh"; "-c"]
          ↔ ∃ command, oc = Some command ∧ command ≠ "")
         ∧ (∀ command, oc = Some command → command ≠ "" →
            c_Args c = Some [command])).
Proof.
  destruct (exec (assembleJob p) s) as [[assembled|e] s1| |] eqn:Hassemble;
    unfold assembleJob in Hassemble;
    rewrite exec_mbind, exec_originalEnvVars in Hassemble;
    cbn [exec] in Hassemble; simplify_eq.
  set (s1 := set_logs _ s).
  set (env := _ <$> filter _ _).
  set (assembled := Build_Job _ _ _ _ _).
  assert (Hcreate : ∀ job s2,
    exec (DecorateJob p assembled) s1 = Done (OK job) s2 →
    cluster s2 = cluster s →
    calls s2 = calls s →
    ∃ s3,
      exec (CreateJob p) s
      = Done match k_createJob (cluster s) (length (calls s))
                     (Namespace p) job with
             | OK _ => None
             | Err err => Some err
             end s3
      ∧ calls s3 = calls s ++ [CallCreateJob (Namespace p) job]).
  { intros job s2 Hdecorate Hcluster Hcalls. unfold CreateJob, assembleJob.
    rewrite exec_mbind, exec_mbind, exec_originalEnvVars.
    cbn [exec]. cbv beta iota. fold env s1 assembled.
    rewrite exec_mbind, Hdecorate. cbv beta iota.
    rewrite exec_mbind. cbn [call exec perform]. rewrite Hcalls, Hcluster.
    destruct (k_createJob _ _ _ _); cbn; eexists; (split; [reflexivity|]);
      simpl; by rewrite Hcalls. }
  destruct (decide (0 < len (OriginalCommands p))) as [Hlen|Hlen].
  - pose proof (exec_DecorateJob_command p assembled _ _ s1 Hlen eq_refl)
      as Hdecorate.
    destruct (Hcreate _ _ Hdecorate eq_refl eq_refl) as (s3 & Hrun & Hcalls).
    eexists assembled, _, _, s1, _, s3.
    split; [reflexivity|]. split; [exact Hdecorate|].
    split; [exact Hrun|]. split; [exact Hcalls|].
    repeat (split; [reflexivity|]).
    split; [intros _; split; reflexivity|]. split; [intros; lia|].
    intros oc Horig. simpl. rewrite Horig in Hlen |- *.
    destruct oc as [command|]; simpl in Hlen; [|lia].
    unfold originalCommands in *. case_bool_decide; simpl in Hlen; [lia|].
    split; [split; [eauto|done]|]. intros command' ? _. by simplify_eq.
  - assert (Hzero : len (OriginalCommands p) = 0) by lia.
    pose proof (exec_DecorateJob_plain p assembled s1 Hzero) as Hdecorate.
    destruct (Hcreate _ _ Hdecorate eq_refl eq_refl) as (s3 & Hrun & Hcalls).
    eexists assembled, _, _, s1, _, s3.
    split; [reflexivity|]. split; [exact Hdecorate|].
    split; [exact Hrun|]. split; [exact Hcalls|].
    repeat (split; [reflexivity|]).
    split; [intros; lia|]. split; [intros _; split; reflexivity|].
    intros oc Horig. simpl. rewrite Horig in Hzero.
    destruct oc as [command|]; unfold originalCommands in Hzero.
    + case_bool_decide; simpl in Hzero; [|lia]. subst command. split.
      * split; [done|]. intros (c & ? & ?). by simplify_eq.
      * intros c ? ?. by simplify_eq.
    + split.
      * split; [done|]. intros (c & ? & ?). by simplify_eq.
      * intros c ? ?. by simplify_eq.
Qed.

(** ** Cleanup *)

(** C10: [Cleanup] issues one client call, the deletion of the job with
    the grace period of 2 seconds, whatever that deletion answers; it adds
    no claim deletion to the call log and returns nothing.  A [run] whose
    [JobEvents] returned nil with a zero WaitGroup ends with nil after
    that one call, whatever the deletion answered. *)
Theorem C10_cleanup_deletes_job_only (p : Plugin) (s : World) :
  (∃ s',
     exec (Cleanup p) s = Done () s'
     ∧ calls s'
       = calls s ++ [CallDeleteJob (Namespace p) (JobName p) 2]
     ∧ ∀ ns name grace,
         CallDeletePVC ns name grace ∈ calls s' →
         CallDeletePVC ns name grace ∈ calls s)
  ∧ (∀ (kubeConfigPath : string) (watcher : Watcher) (s0 sj : World),
       run_reaches_JobEvents kubeConfigPath p s0 watcher sj →
       exec (JobEvents p watcher) sj = Done None s →
       wg s = 0%Z →
       ∃ s'',
         exec (run kubeConfigPath p) s0 = Done None s''
         ∧ calls s''
           = calls s ++ [CallDeleteJob (Namespace p) (JobName p) 2]).
Proof.
  assert (Hclean : ∃ s',
     exec (Cleanup p) s = Done () s'
     ∧ calls s' = calls s ++ [CallDeleteJob (Namespace p) (JobName p) 2]).
  { unfold Cleanup, DeleteJob. cbn.
    destruct (k_deleteJob _ _ _ _); cbn; eexists; split; reflexivity. }
  destruct Hclean as (s' & Hrun & Hcalls). split.
  - exists s'. split; [done|]. split; [done|].
    intros ns name grace. rewrite Hcalls, elem_of_app, list_elem_of_singleton.
    intros [?|?]; [done|discriminate].
  - intros path watcher s0 sj Hreach Hjob Hwg. exists s'.
    rewrite (run_from_JobEvents _ _ _ _ _ Hreach), exec_mbind, Hjob.
    cbv beta iota. rewrite exec_mbind. cbn [call exec perform].
    rewrite bool_decide_true by done.
    rewrite exec_mbind, Hrun. split; [reflexivity|exact Hcalls].
Qed.

Lemma C10_witness :
  ∃ s'',
    exec (run "/tmp/.kube/config" sample_plugin)
         (init_world
            (with_deleteJob (Some "jobs is forbidden")
               (scenario_cluster
                  [job_event Added 0 0; job_event Modified 0 1]
                  (OK []) (Err "no logs"))))
    = Done None s''
    ∧ last (calls s'')
      = Some (CallDeleteJob "default" "repository-0-1500000000" 2).
Proof.
  refine (match proj2 (C10_cleanup_deletes_job_only sample_plugin _)
                  "/tmp/.kube/config"
                  (job_watcher [job_event Added 0 0; job_event Modified 0 1])
                  (init_world
                     (with_deleteJob (Some "jobs is forbidden")
                        (scenario_cluster
                           [job_event Added 0 0; job_event Modified 0 1]
                           (OK []) (Err "no logs"))))
                  _ _ _ _ with
          | ex_intro _ s'' (conj Hrun Hcalls) => _
          end).
  - unfold run_reaches_JobEvents. eexists _, _, _, _, _.
    split; [vm_compute; reflexivity|].
    split; [vm_compute; reflexivity|].
    split; [vm_compute; reflexivity|].
    split; [vm_compute; reflexivity|].
    vm_compute; reflexivity.
  - vm_compute. reflexivity.
  - reflexivity.
  - exists s''. split; [exact Hrun|]. rewrite Hcalls. apply last_snoc.
Defined.

(** ** The WaitGroup *)

(** A qualifying event met with the pod flag off opens the pod watch, sets
    the flag, adds one to the WaitGroup and spawns [PodEvents]. *)
Lemma handleJobEvent_spawns (p : Plugin) (watcher : Watcher) (job : Job)
    (evs : list Event) (s : World) :
  ¬ (Failed (j_Status job) > 0)%Z →
  ¬ (Succeeded (j_Status job) > 0)%Z →
  status s PodWatcherStatusKey = false →
  k_watchPods (cluster s) (length (calls s)) (Namespace p)
    {| lo_Watch := false; lo_LabelSelector := selector p |} = OK evs →
  (0 ≤ wg s)%Z →
  ∃ s',
    exec (handleJobEvent p {| e_Type := Modified; e_Object := ObjJob job |}
            watcher) s = Done None s'
    ∧ wg s' = (wg s + 1)%Z
    ∧ goroutines s'
      = goroutines s
        ++ [GoPodEvents p {| wid := length (subscriptions s);
                             ResultChan := evs |}]
    ∧ subscriptions s'
      = subscriptions s ++ [{| s_kind := PodsKind; s_stops := 0 |}]
    ∧ status s' PodWatcherStatusKey = true
    ∧ cluster s' = cluster s
    ∧ calls s'
      = calls s ++ [CallWatchPods (Namespace p)
                      {| lo_Watch := false; lo_LabelSelector := selector p |}].
Proof.
  intros Hfailed Hsucceeded Hflag Hwatch Hwg. unfold status in Hflag.
  eexists. split.
  - unfold handleJobEvent. cbn. rewrite !bool_decide_false by done. cbn.
    rewrite Hflag. cbn. rewrite Hwatch. cbn.
    rewrite bool_decide_false by lia. cbn. reflexivity.
  - cbn. split; [done|]. split; [done|]. split; [done|].
    split; [|done]. apply status_insert.
Qed.

(** Met with the pod flag on it does nothing but log. *)
Lemma handleJobEvent_watched (p : Plugin) (watcher : Watcher) (job : Job)
    (s : World) :
  ¬ (Failed (j_Status job) > 0)%Z →
  ¬ (Succeeded (j_Status job) > 0)%Z →
  status s PodWatcherStatusKey = true →
  ∃ s',
    exec (handleJobEvent p {| e_Type := Modified; e_Object := ObjJob job |}
            watcher) s = Done None s'
    ∧ wg s' = wg s
    ∧ goroutines s' = goroutines s
    ∧ subscriptions s' = subscriptions s
    ∧ watcherStatusMap s' = watcherStatusMap s
    ∧ cluster s' = cluster s
    ∧ calls s' = calls s.
Proof.
  intros Hfailed Hsucceeded Hflag. unfold status in Hflag. eexists. split.
  - unfold handleJobEvent. cbn. rewrite !bool_decide_false by done. cbn.
    rewrite Hflag. cbn. reflexivity.
  - done.
Qed.

(** A pod Modified event met with the log flag off spawns [WatchLogs] and
    leaves the flag and the WaitGroup as they are. *)
Lemma handlePodEvent_spawns (p : Plugin) (watcher : Watcher) (pod : Pod)
    (s : World) :
  status s LogWatcherStatusKey = false →
  ∃ s',
    exec (handlePodEvent p {| e_Type := Modified; e_Object := ObjPod pod |}
            watcher) s = Done () s'
    ∧ goroutines s' = goroutines s ++ [GoWatchLogs p (p_Name pod)]
    ∧ wg s' = wg s
    ∧ watcherStatusMap s' = watcherStatusMap s
    ∧ subscriptions s' = subscriptions s
    ∧ calls s' = calls s.
Proof.
  intros Hflag. unfold status in Hflag. eexists. split.
  - unfold handlePodEvent. cbn. rewrite Hflag. cbn. reflexivity.
  - done.
Qed.

(** Met with the log flag on it is ignored. *)
Lemma handlePodEvent_ignored (p : Plugin) (watcher : Watcher) (pod : Pod)
    (s : World) :
  status s LogWatcherStatusKey = true →
  ∃ s',
    exec (handlePodEvent p {| e_Type := Modified; e_Object := ObjPod pod |}
            watcher) s = Done () s'
    ∧ goroutines s' = goroutines s
    ∧ wg s' = wg s
    ∧ watcherStatusMap s' = watcherStatusMap s
    ∧ subscriptions s' = subscriptions s
    ∧ calls s' = calls s.
Proof.
  intros Hflag. unfold status in Hflag. eexists. split.
  - unfold handlePodEvent. cbn. rewrite Hflag. cbn. reflexivity.
  - done.
Qed.

(** [WatchLogs] on a stream that opened: the copy, then the flag off and
    one [Done], whatever the copy returned. *)
Lemma WatchLogs_streams (p : Plugin) (podName : string)
    (data : string * option error) (s : World) :
  k_getLogs (cluster s) (length (calls s)) (Namespace p) podName = OK data →
  (1 ≤ wg s)%Z →
  ∃ s',
    exec (WatchLogs p podName) s = Done () s'
    ∧ wg s' = (wg s - 1)%Z
    ∧ status s' LogWatcherStatusKey = false
    ∧ stdout s' = stdout s ++ [data.1]
    ∧ readers s' = readers s ++ [true]
    ∧ goroutines s' = goroutines s
    ∧ subscriptions s' = subscriptions s.
Proof.
  intros Hlogs Hwg. eexists. split.
  - unfold WatchLogs. cbn. rewrite Hlogs. cbn.
    rewrite bool_decide_false by lia. cbn. reflexivity.
  - cbn. split; [lia|]. split; [|split; [done|split; [|done]]].
    + unfold status. simpl. by rewrite lookup_insert_eq.
    + rewrite insert_app_r_alt by done. by rewrite Nat.sub_diag.
Qed.

(** The same with a WaitGroup at zero: [Done] panics. *)
Lemma WatchLogs_panics (p : Plugin) (podName : string)
    (data : string * option error) (s : World) :
  k_getLogs (cluster s) (length (calls s)) (Namespace p) podName = OK data →
  (wg s < 1)%Z →
  ∃ s',
    exec (WatchLogs p podName) s
    = Panicked "sync: negative WaitGroup counter" s'
    ∧ stdout s' = stdout s ++ [data.1].
Proof.
  intros Hlogs Hwg. eexists. split.
  - unfold WatchLogs. cbn. rewrite Hlogs. cbn.
    rewrite bool_decide_true by lia. reflexivity.
  - done.
Qed.


(** [WatchLogs] on a stream that did not open: a debug line, the flag off,
    and the task ends without [Done]. *)
Lemma WatchLogs_open_failure (p : Plugin) (podName : string) (e : error)
    (s : World) :
  k_getLogs (cluster s) (length (calls s)) (Namespace p) podName = Err e →
  ∃ s',
    exec (WatchLogs p podName) s = Done () s'
    ∧ wg s' = wg s
    ∧ status s' LogWatcherStatusKey = false
    ∧ stdout s' = stdout s
    ∧ readers s' = readers s
    ∧ goroutines s' = goroutines s
    ∧ subscriptions s' = subscriptions s.
Proof.
  intros Hlogs. eexists. split.
  - unfold WatchLogs. cbn. rewrite Hlogs. cbn. reflexivity.
  - split; [done|]. split; [apply status_insert|done].
Qed.

(** The order inside [handleJobEvent] when it spawns: at every point the
    WaitGroup and the spawned tasks are as at the start, or the WaitGroup
    is incremented and the very next instruction is the [go], or both are
    done. *)
Lemma handleJobEvent_spawn_order (p : Plugin) (watcher : Watcher) (job : Job)
    (evs : list Event) (s : World) :
  ¬ (Failed (j_Status job) > 0)%Z →
  ¬ (Succeeded (j_Status job) > 0)%Z →
  status s PodWatcherStatusKey = false →
  k_watchPods (cluster s) (length (calls s)) (Namespace p)
    {| lo_Watch := false; lo_LabelSelector := selector p |} = OK evs →
  (0 ≤ wg s)%Z →
  every_step
    (handleJobEvent p {| e_Type := Modified; e_Object := ObjJob job |}
       watcher) s
    (λ q sn,
       (wg sn = wg s ∧ goroutines sn = goroutines s)
       ∨ (wg sn = (wg s + 1)%Z ∧ goroutines sn = goroutines s
          ∧ next_step q sn
              (λ s', wg s' = (wg s + 1)%Z
                     ∧ goroutines s'
                       = goroutines s
                         ++ [GoPodEvents p
                               {| wid := length (subscriptions s);
                                  ResultChan := evs |}]))
       ∨ (wg sn = (wg s + 1)%Z
          ∧ goroutines sn
            = goroutines s
              ++ [GoPodEvents p {| wid := length (subscriptions s);
                                   ResultChan := evs |}])).
Proof.
  intros Hf Hs Hflag Hwatch Hwg. unfold status in Hflag.
  unfold handleJobEvent. cbn. rewrite !bool_decide_false by done.
  walk ltac:(by left).
  walk ltac:(by left).
  walk ltac:(by left).
  rewrite Hflag. cbn.
  eapply every_step_Vis; [cbn; rewrite Hwatch; reflexivity|by left|cbn].
  walk ltac:(by left).
  walk ltac:(by left).
  walk ltac:(by left).
  eapply every_step_Vis;
    [cbn; rewrite bool_decide_false by lia; reflexivity|by left|cbn].
  walk ltac:(right; left; split; [done|]; split; [done|];
             eexists _, _; split; [reflexivity|]; by cbn).
  apply every_step_Ret. by right; right.
Qed.

(** The run of [handleJobEvent] that spawns, instruction by instruction. *)
Lemma handleJobEvent_spawns_steps (p : Plugin) (watcher : Watcher) (job : Job)
    (evs : list Event) (s s' : World) :
  ¬ (Failed (j_Status job) > 0)%Z →
  ¬ (Succeeded (j_Status job) > 0)%Z →
  status s PodWatcherStatusKey = false →
  k_watchPods (cluster s) (length (calls s)) (Namespace p)
    {| lo_Watch := false; lo_LabelSelector := selector p |} = OK evs →
  (0 ≤ wg s)%Z →
  exec (handleJobEvent p {| e_Type := Modified; e_Object := ObjJob job |}
          watcher) s = Done None s' →
  steps 9 (handleJobEvent p {| e_Type := Modified; e_Object := ObjJob job |}
             watcher) s = Some (Ret None, s').
Proof.
  intros Hf Hs Hflag Hwatch Hwg. unfold status in Hflag.
  unfold handleJobEvent. cbn. rewrite !bool_decide_false by done. cbn.
  rewrite Hflag. cbn. rewrite Hwatch. cbn.
  rewrite bool_decide_false by lia. cbn.
  intros; simplify_eq. reflexivity.
Qed.

(** [handlePodEvent] never touches the WaitGroup when it spawns. *)
Lemma handlePodEvent_spawn_counter (p : Plugin) (watcher : Watcher) (pod : Pod)
    (s : World) :
  status s LogWatcherStatusKey = false →
  every_step
    (handlePodEvent p {| e_Type := Modified; e_Object := ObjPod pod |}
       watcher) s
    (λ _ sn, wg sn = wg s).
Proof.
  intros Hflag. unfold status in Hflag. unfold handlePodEvent. cbn.
  walk ltac:(done).
  walk ltac:(done).
  rewrite Hflag. cbn.
  walk ltac:(done).
  by apply every_step_Ret.
Qed.

(** The order inside [WatchLogs] on a stream that opened: at every point
    the WaitGroup is as at the start, or it is decremented and by then the
    copy has written the log and the log flag is off. *)
Lemma WatchLogs_done_after_copy (p : Plugin) (podName : string)
    (data : string * option error) (s : World) :
  k_getLogs (cluster s) (length (calls s)) (Namespace p) podName = OK data →
  (1 ≤ wg s)%Z →
  every_step (WatchLogs p podName) s
    (λ _ sn,
       (wg sn = wg s)
       ∨ (wg sn = (wg s - 1)%Z
          ∧ stdout sn = stdout s ++ [data.1]
          ∧ status sn LogWatcherStatusKey = false)).
Proof.
  intros Hlogs Hwg. unfold WatchLogs. cbn.
  eapply every_step_Vis; [cbn; rewrite Hlogs; reflexivity|by left|cbn].
  walk ltac:(by left).
  walk ltac:(by left).
  walk ltac:(by left).
  walk ltac:(by left).
  walk ltac:(by left).
  walk ltac:(by left).
  walk ltac:(by left).
  walk ltac:(by left).
  eapply every_step_Vis;
    [cbn; rewrite bool_decide_false by lia; reflexivity|by left|cbn].
  assert (∀ m : gmap string bool,
            default false (<[LogWatcherStatusKey := false]> m
                           !! LogWatcherStatusKey) = false) as Hoff.
  { intros m. by rewrite lookup_insert_eq. }
  walk ltac:(right; split; [simpl; lia|]; split; [done|]; apply Hoff).
  apply every_step_Ret. right. split; [simpl; lia|]. split; [done|].
  apply Hoff.
Qed.

(** The run of [WatchLogs] on a stream that opened, instruction by
    instruction. *)
Lemma WatchLogs_streams_steps (p : Plugin) (podName : string)
    (data : string * option error) (s s' : World) :
  k_getLogs (cluster s) (length (calls s)) (Namespace p) podName = OK data →
  (1 ≤ wg s)%Z →
  exec (WatchLogs p podName) s = Done () s' →
  steps 11 (WatchLogs p podName) s = Some (Ret (), s').
Proof.
  intros Hlogs Hwg. unfold WatchLogs. cbn. rewrite Hlogs. cbn.
  rewrite bool_decide_false by lia. cbn.
  intros; simplify_eq. reflexivity.
Qed.

(** [WatchLogs] on a stream that did not open never touches the
    WaitGroup. *)
Lemma WatchLogs_open_failure_counter (p : Plugin) (podName : string)
    (e : error) (s : World) :
  k_getLogs (cluster s) (length (calls s)) (Namespace p) podName = Err e →
  every_step (WatchLogs p podName) s (λ _ sn, wg sn = wg s).
Proof.
  intros Hlogs. unfold WatchLogs. cbn.
  eapply every_step_Vis; [cbn; rewrite Hlogs; reflexivity|done|cbn].
  walk ltac:(done).
  walk ltac:(done).
  walk ltac:(done).
  by apply every_step_Ret.
Qed.

Lemma C4_counterexample :
  ∃ s',
    exec (WatchLogs sample_plugin "pod-1")
         (set_wg (λ _, 1%Z)
            (init_world (scenario_cluster [] (OK []) (Err "no logs"))))
    = Done () s'
    ∧ wg s' = 1%Z.
Proof. eexists. split; [vm_compute; reflexivity|reflexivity]. Qed.

(** C4, amended: the WaitGroup is incremented by one in [handleJobEvent],
    right before the pod watcher task is spawned: at every point of that
    run either neither has happened, or the increment has and the very next
    instruction is the [go], or both have.  Spawning a log-stream task
    ([handlePodEvent] on a Modified event) does not touch it at any point.
    A log-stream task whose stream opened decrements it by one once the
    copy has ended, whatever the copy returned: at every point of its run
    the counter is as at the start, or it is one less and by then the log
    is copied to the standard output and the log flag is off.  One whose
    stream did not open ends and leaves the counter unchanged throughout.
    When [JobEvents] returns nil, [run] is blocked in [Wait] and issues no
    cleanup call while the counter is not 0, and goes on to the cleanup
    when it is 0; when [JobEvents] returns an error, [run] returns it
    without waiting. *)
Theorem C4_wait_group (p : Plugin) :
  (∀ (watcher : Watcher) (job : Job) (evs : list Event) (s : World),
     ¬ (Failed (j_Status job) > 0)%Z →
     ¬ (Succeeded (j_Status job) > 0)%Z →
     status s PodWatcherStatusKey = false →
     k_watchPods (cluster s) (length (calls s)) (Namespace p)
       {| lo_Watch := false; lo_LabelSelector := selector p |} = OK evs →
     (0 ≤ wg s)%Z →
     let event := {| e_Type := Modified; e_Object := ObjJob job |} in
     let podEvents :=
       GoPodEvents p {| wid := length (subscriptions s);
                        ResultChan := evs |} in
     (∃ s',
        exec (handleJobEvent p event watcher) s = Done None s'
        ∧ wg s' = (wg s + 1)%Z
        ∧ goroutines s' = goroutines s ++ [podEvents]
        ∧ ∃ n, steps n (handleJobEvent p event watcher) s
               = Some (Ret None, s'))
     ∧ every_step (handleJobEvent p event watcher) s
         (λ q sn,
            (wg sn = wg s ∧ goroutines sn = goroutines s)
            ∨ (wg sn = (wg s + 1)%Z ∧ goroutines sn = goroutines s
               ∧ next_step q sn
                   (λ s', wg s' = (wg s + 1)%Z
                          ∧ goroutines s' = goroutines s ++ [podEvents]))
            ∨ (wg sn = (wg s + 1)%Z
               ∧ goroutines sn = goroutines s ++ [podEvents])))
  ∧ (∀ (watcher : Watcher) (pod : Pod) (s : World),
       status s LogWatcherStatusKey = false →
       let event := {| e_Type := Modified; e_Object := ObjPod pod |} in
       (∃ s',
          exec (handlePodEvent p event watcher) s = Done () s'
          ∧ wg s' = wg s
          ∧ goroutines s' = goroutines s ++ [GoWatchLogs p (p_Name pod)])
       ∧ every_step (handlePodEvent p event watcher) s
           (λ _ sn, wg sn = wg s))
  ∧ (∀ (podName : string) (data : string * option error) (s : World),
       k_getLogs (cluster s) (length (calls s)) (Namespace p) podName
       = OK data →
       (1 ≤ wg s)%Z →
       (∃ s',
          exec (WatchLogs p podName) s = Done () s'
          ∧ wg s' = (wg s - 1)%Z
          ∧ stdout s' = stdout s ++ [data.1]
          ∧ status s' LogWatcherStatusKey = false
          ∧ ∃ n, steps n (WatchLogs p podName) s = Some (Ret (), s'))
       ∧ every_step (WatchLogs p podName) s
           (λ _ sn,
              wg sn = wg s
              ∨ (wg sn = (wg s - 1)%Z
                 ∧ stdout sn = stdout s ++ [data.1]
                 ∧ status sn LogWatcherStatusKey = false)))
  ∧ (∀ (podName : string) (e : error) (s : World),
       k_getLogs (cluster s) (length (calls s)) (Namespace p) podName
       = Err e →
       (∃ s', exec (WatchLogs p podName) s = Done () s' ∧ wg s' = wg s)
       ∧ every_step (WatchLogs p podName) s (λ _ sn, wg sn = wg s))
  ∧ (∀ (kubeConfigPath : string) (watcher : Watcher) (s0 sj s : World),
       run_reaches_JobEvents kubeConfigPath p s0 watcher sj →
       exec (JobEvents p watcher) sj = Done None s →
       (wg s ≠ 0%Z → exec (run kubeConfigPath p) s0 = Blocked s)
       ∧ (wg s = 0%Z →
          ∃ s'', exec (run kubeConfigPath p) s0 = Done None s''
                 ∧ calls s''
                   = calls s ++ [CallDeleteJob (Namespace p) (JobName p) 2]))
  ∧ (∀ (kubeConfigPath : string) (watcher : Watcher) (s0 sj s : World)
       (e : error),
       run_reaches_JobEvents kubeConfigPath p s0 watcher sj →
       exec (JobEvents p watcher) sj = Done (Some e) s →
       ∃ s'', exec (run kubeConfigPath p) s0 = Done (Some e) s''
              ∧ wg s'' = wg s
              ∧ calls s'' = calls s).
Proof.
  split; [|split; [|split; [|split; [|split]]]].
  - intros watcher job evs s Hf Hs Hflag Hwatch Hwg event podEvents.
    split; [|by apply handleJobEvent_spawn_order].
    destruct (handleJobEvent_spawns p watcher job evs s Hf Hs Hflag Hwatch Hwg)
      as (s' & Hrun & Hcount & Hgo & _).
    exists s'. split; [exact Hrun|]. split; [exact Hcount|].
    split; [exact Hgo|]. exists 9.
    by apply handleJobEvent_spawns_steps with evs.
  - intros watcher pod s Hflag event.
    split; [|by apply handlePodEvent_spawn_counter].
    destruct (handlePodEvent_spawns p watcher pod s Hflag)
      as (s' & Hrun & Hgo & Hcount & _). eauto.
  - intros podName data s Hlogs Hwg.
    split; [|by apply WatchLogs_done_after_copy].
    destruct (WatchLogs_streams p podName data s Hlogs Hwg)
      as (s' & Hrun & Hcount & Hflag & Hout & _).
    exists s'. split; [exact Hrun|]. split; [exact Hcount|].
    split; [exact Hout|]. split; [exact Hflag|]. exists 11.
    by apply WatchLogs_streams_steps with data.
  - intros podName e s Hlogs.
    split; [|by apply WatchLogs_open_failure_counter with e].
    destruct (WatchLogs_open_failure p podName e s Hlogs)
      as (s' & Hrun & Hcount & _). eauto.
  - intros path watcher s0 sj s Hreach Hjob. split.
    + intros Hwg.
      rewrite (run_from_JobEvents _ _ _ _ _ Hreach), exec_mbind, Hjob.
      cbv beta iota. rewrite exec_mbind. cbn [call exec perform].
      by rewrite bool_decide_false.
    + intros Hwg.
      rewrite (run_from_JobEvents _ _ _ _ _ Hreach), exec_mbind, Hjob.
      cbv beta iota. rewrite exec_mbind. cbn [call exec perform].
      rewrite bool_decide_true by done.
      unfold Cleanup, DeleteJob. cbn.
      destruct (k_deleteJob _ _ _ _); cbn; eexists; split; reflexivity.
  - intros path watcher s0 sj s e Hreach Hjob. eexists.
    rewrite (run_from_JobEvents _ _ _ _ _ Hreach), exec_mbind, Hjob.
    cbn. done.
Qed.

Lemma C4_witness :
  (∃ s',
     exec (WatchLogs sample_plugin "pod-1")
          (set_wg (λ _, 1%Z) (init_world plain_cluster)) = Done () s'
     ∧ wg s' = 0%Z
     ∧ stdout s' = ["hello Kubernauts!"])
  ∧ (∃ s',
       exec (handleJobEvent sample_plugin (job_event Modified 0 0)
               (job_watcher []))
            (init_world plain_cluster) = Done None s'
       ∧ wg s' = 1%Z
       ∧ length (goroutines s') = 1)
  ∧ ∃ s,
      exec (run "/tmp/.kube/config" sample_plugin)
           (init_world (scenario_cluster [job_event Modified 0 0]
                          (OK []) (Err "no logs")))
      = Blocked s
      ∧ wg s = 1%Z.
Proof.
  split; [|split].
  - destruct (proj1 (proj1 (proj2 (proj2 (C4_wait_group sample_plugin)))
                "pod-1" ("hello Kubernauts!", None)
                (set_wg (λ _, 1%Z) (init_world plain_cluster))
                eq_refl ltac:(simpl; lia)))
      as (s' & Hrun & Hcount & Hout & _).
    exists s'. split; [exact Hrun|]. split.
    + rewrite Hcount. reflexivity.
    + rewrite Hout. reflexivity.
  - destruct (proj1 (proj1 (C4_wait_group sample_plugin)
                (job_watcher []) (reported_job 0 0) [] (init_world plain_cluster)
                ltac:(simpl; lia) ltac:(simpl; lia) eq_refl eq_refl
                ltac:(simpl; lia)))
      as (s' & Hrun & Hcount & Hgo & _).
    exists s'. split; [exact Hrun|]. split.
    + rewrite Hcount. reflexivity.
    + rewrite Hgo. reflexivity.
  - refine (match proj1 (proj2 (proj2 (proj2 (proj2
                       (C4_wait_group sample_plugin)))))
                       "/tmp/.kube/config"
                       (job_watcher [job_event Modified 0 0])
                       (init_world (scenario_cluster [job_event Modified 0 0]
                                      (OK []) (Err "no logs")))
                       _ _ _ _ with
            | conj Hblocked _ => _
            end).
    + unfold run_reaches_JobEvents. eexists _, _, _, _, _.
      split; [vm_compute; reflexivity|].
      split; [vm_compute; reflexivity|].
      split; [vm_compute; reflexivity|].
      split; [vm_compute; reflexivity|].
      vm_compute; reflexivity.
    + vm_compute. reflexivity.
    + eexists. split; [apply Hblocked; vm_compute; discriminate|].
      vm_compute. reflexivity.
Defined.

(** ** One watcher of a kind *)

(** Two pod Modified events handled one after the other, before any of the
    spawned tasks has run, spawn two log tasks: the log flag is only set
    by [WatchLogs] itself. *)
Lemma PodEvents_spawns_twice (p : Plugin) (watcher : Watcher)
    (pod1 pod2 : Pod) (s : World) :
  ResultChan watcher
  = [ {| e_Type := Modified; e_Object := ObjPod pod1 |};
      {| e_Type := Modified; e_Object := ObjPod pod2 |} ] →
  status s LogWatcherStatusKey = false →
  stopped s (wid watcher) = false →
  ∃ s',
    exec (PodEvents p watcher) s = Done () s'
    ∧ goroutines s'
      = goroutines s
        ++ [GoWatchLogs p (p_Name pod1); GoWatchLogs p (p_Name pod2)]
    ∧ status s' LogWatcherStatusKey = false.
Proof.
  intros Hchan Hflag Hopen. unfold status in Hflag.
  unfold PodEvents, pod_loop. rewrite Hchan. eexists. split.
  - rewrite exec_mbind, !exec_ForRange_cons, Hopen.
    unfold handlePodEvent. cbn -[stopped]. rewrite Hflag. cbn -[stopped].
    change (stopped _ (wid watcher)) with (stopped s (wid watcher)).
    rewrite Hopen. cbn. rewrite Hflag. cbn. reflexivity.
  - split; [|done]. simpl. by rewrite <- app_assoc.
Qed.

(** C6: the code at the failing input.  With the pod events
    [Modified; Modified] for one pod, there is a schedule of [run] after
    which two [WatchLogs] tasks have been spawned and two log streams are
    open at once; carried on, both copy the log to the standard output and
    the second [Done] panics on a negative WaitGroup counter. *)
Theorem C6_two_log_streamers_at_once :
  (λ c, (goroutines (world c), open_readers (world c)))
    <$> sched both_streaming twice_modified
  = Some ([GoPodEvents sample_plugin
             {| wid := 1;
                ResultChan := [pod_event Modified "pod-1";
                               pod_event Modified "pod-1"] |};
           GoWatchLogs sample_plugin "pod-1";
           GoWatchLogs sample_plugin "pod-1"], 2)
  ∧ (λ c, (pool c !! 2, stdout (world c)))
      <$> sched both_done twice_modified
    = Some (Some (Panic "sync: negative WaitGroup counter"),
            ["hello Kubernauts!"; "hello Kubernauts!"]).
Proof. split; vm_compute; reflexivity. Qed.

Lemma C5_counterexample :
  (λ c, (goroutines (world c), wg (world c)))
    <$> sched respawn pod_deleted_between
  = Some ([GoPodEvents sample_plugin
             {| wid := 1; ResultChan := [pod_event Deleted "pod-1"] |};
           GoPodEvents sample_plugin
             {| wid := 2; ResultChan := [pod_event Deleted "pod-1"] |}],
          2%Z).
Proof. vm_compute. reflexivity. Qed.

(** The loop of [JobEvents] over qualifying events met with the pod flag
    on: nothing but log lines. *)
Lemma job_loop_watched (p : Plugin) (watcher : Watcher) (evs : list Event)
    (s : World) :
  Forall qualifying evs →
  status s PodWatcherStatusKey = true →
  ∃ s',
    exec (job_loop p watcher evs) s = Done None s'
    ∧ wg s' = wg s
    ∧ goroutines s' = goroutines s
    ∧ subscriptions s' = subscriptions s
    ∧ watcherStatusMap s' = watcherStatusMap s
    ∧ calls s' = calls s.
Proof.
  intros Hevs. revert s. induction Hevs as [|ev evs Hev _ IH]; intros s Hflag.
  - by exists s.
  - unfold job_loop in *. rewrite exec_ForRange_cons.
    destruct (stopped s (wid watcher)); [by exists s|].
    destruct Hev as (job & -> & Hf & Hs).
    destruct (handleJobEvent_watched p watcher job s Hf Hs Hflag)
      as (s1 & Hrun & Hwg & Hgo & Hsubs & Hmap & _ & Hcalls).
    rewrite exec_mbind, Hrun. cbv beta iota. rewrite exec_Ret.
    destruct (IH s1) as (s' & Hrun' & Hwg' & Hgo' & Hsubs' & Hmap' & Hcalls').
    { unfold status. by rewrite Hmap. }
    exists s'. split; [exact Hrun'|]. repeat split; congruence.
Qed.

(** ** At most one open pod subscription *)

Lemma ok_mono {A : Type} (m : mode) (Q Q' : mode → A → Prop) (p : prog A) :
  (∀ m' a, Q m' a → Q' m' a) → ok m Q p → ok m Q' p.
Proof.
  revert m Q Q'.
  induction p as [A a|A msg|A X i k IH|A R w ch body IHb k IHk];
    intros m Q Q' HQ; simpl.
  - apply HQ.
  - done.
  - intros Hok x. specialize (Hok x).
    destruct (after m i x); [|done]. by eapply IH.
  - intros (I & Hm & Hend & Hbody). exists I. split; [done|]. split.
    + intros m1 Hm1. eapply IHk; [exact HQ|]. by apply Hend.
    + intros m1 ev Hm1 Hlive. eapply IHb; [|by apply Hbody].
      intros m2 [r|]; [|done]. simpl. by apply IHk.
Qed.

Lemma ok_bind {A B : Type} (m : mode) (Q : mode → B → Prop) (p : prog A)
    (f : A → prog B) :
  ok m (λ m' a, ok m' Q (f a)) p → ok m Q (bind p f).
Proof.
  revert m B Q f.
  induction p as [A a|A msg|A X i k IH|A R w ch body IHb k IHk];
    intros m B Q f; simpl.
  - done.
  - done.
  - intros Hok x. specialize (Hok x).
    destruct (after m i x); [|done]. by apply IH.
  - intros (I & Hm & Hend & Hbody). exists I. split; [done|]. split.
    + intros m1 Hm1. apply IHk. by apply Hend.
    + intros m1 ev Hm1 Hlive. eapply ok_mono; [|by apply Hbody].
      intros m2 [r|]; [|done]. simpl. apply IHk.
Qed.

Lemma ok_mbind {A B : Type} (m : mode) (Q : mode → B → Prop) (p : prog A)
    (f : A → prog B) :
  ok m (λ m' a, ok m' Q (f a)) p → ok m Q (p ≫= f).
Proof. apply ok_bind. Qed.

(** The tasks of the plugin fit the bookkeeping. *)

Ltac ok_steps :=
  repeat first
    [ progress (cbn -[bool_decide])
    | progress intros
    | match goal with
      | |- True => exact I
      | x : unit |- _ => destruct x
      | |- context [bool_decide (?a = ?b)] =>
          first [ rewrite (bool_decide_true (a = b)) by done
                | rewrite (bool_decide_false (a = b)) by done ]
      | |- context [bool_decide ?P] => destruct (bool_decide P)
      | |- context [match ?x with _ => _ end] => is_var x; destruct x
      end ].

Lemma WatchLogs_ok (p : Plugin) (podName : string) :
  ok Other (λ _ _, True) (WatchLogs p podName).
Proof. unfold WatchLogs. ok_steps. Qed.

Lemma handlePodEvent_ok (p : Plugin) (event : Event) (watcher : Watcher) :
  ok (Live (wid watcher))
     (λ m _, m = Live (wid watcher) ∨ m = Dead (wid watcher))
     (handlePodEvent p event watcher).
Proof.
  unfold handlePodEvent. destruct event as [[] []]; ok_steps; auto.
Qed.

Lemma PodEvents_ok (p : Plugin) (watcher : Watcher) :
  ok (Live (wid watcher)) (λ _ _, True) (PodEvents p watcher).
Proof.
  unfold PodEvents, pod_loop. apply ok_mbind. simpl.
  exists (λ m, m = Live (wid watcher) ∨ m = Dead (wid watcher)).
  split; [by left|]. split; [done|].
  intros m1 ev [->| ->] Hlive; [|done].
  apply ok_bind. eapply ok_mono; [|apply handlePodEvent_ok].
  intros m' [] Hm'. exact Hm'.
Qed.

Lemma goroutine_body_ok (g : Goroutine) :
  ok (born g) (λ _ _, True) (goroutine_body g).
Proof. destruct g; [apply PodEvents_ok|apply WatchLogs_ok]. Qed.

Lemma handleJobEvent_ok (p : Plugin) (event : Event) (watcher : Watcher) :
  ok Idle
     (λ m r, match r with
             | None => m = Idle
             | Some _ => m = Idle ∨ m = Checked
             end)
     (handleJobEvent p event watcher).
Proof.
  unfold handleJobEvent, WatchPod. destruct event as [[] []]; ok_steps; auto.
Qed.

Lemma JobEvents_ok (p : Plugin) (watcher : Watcher) :
  ok Idle (λ m _, m = Idle ∨ m = Checked) (JobEvents p watcher).
Proof.
  unfold JobEvents, job_loop. apply ok_mbind. simpl.
  exists (λ m, m = Idle). split; [done|]. split.
  - intros m1 ->. simpl. intros []. simpl. by left.
  - intros m1 ev -> _. apply ok_bind.
    eapply ok_mono; [|apply handleJobEvent_ok].
    intros m' [e|] Hm'; simpl; [|done]. destruct Hm' as [->| ->]; auto.
Qed.

Lemma ok_call_bind {X B : Type} (m : mode) (Q : mode → B → Prop)
    (i : instr X) (f : X → prog B) :
  (∀ x, match after m i x with
        | Some m' => ok m' Q (f x)
        | None => False
        end) →
  ok m Q (call i ≫= f).
Proof. intros Hok. apply ok_mbind. exact Hok. Qed.

Lemma CreateOrGetPVC_ok (p : Plugin) :
  ok Idle (λ m _, m = Idle) (CreateOrGetPVC p).
Proof. unfold CreateOrGetPVC. ok_steps; auto. Qed.

Lemma WatchJob_ok (p : Plugin) : ok Idle (λ m _, m = Idle) (WatchJob p).
Proof. unfold WatchJob. ok_steps; auto. Qed.

Lemma CreateJob_ok (p : Plugin) : ok Idle (λ m _, m = Idle) (CreateJob p).
Proof.
  unfold CreateJob, assembleJob, originalEnvVars, DecorateJob.
  ok_steps; auto.
Qed.

Lemma Cleanup_ok (p : Plugin) (m : mode) : ok m (λ _ _, True) (Cleanup p).
Proof. unfold Cleanup, DeleteJob. ok_steps; auto. Qed.

Lemma run_ok (kubeConfigPath : string) (plugin : Plugin) :
  ok Idle (λ _ _, True) (run kubeConfigPath plugin).
Proof.
  unfold run.
  apply ok_call_bind. intros [e|]; cbn [after]; [ok_steps|].
  apply ok_call_bind. intros [e|]; cbn [after]; [ok_steps|].
  apply ok_mbind. eapply ok_mono; [|apply CreateOrGetPVC_ok].
  intros m' [claim|e] ->; [|ok_steps].
  apply ok_mbind. eapply ok_mono; [|apply WatchJob_ok].
  intros m' [jobWatcher|e] ->; [|ok_steps].
  apply ok_mbind. eapply ok_mono; [|apply CreateJob_ok].
  intros m' [e|] ->; [ok_steps|].
  apply ok_mbind. eapply ok_mono; [|apply JobEvents_ok].
  intros m' [e|] Hm'; [destruct Hm' as [->| ->]; ok_steps|].
  apply ok_call_bind. intros []. cbn [after].
  apply ok_mbind. eapply ok_mono; [|apply Cleanup_ok]. done.
Qed.

(** What one instruction does to the goroutines, the pod flag and the
    subscriptions. *)
Lemma perform_goroutines {X : Type} (i : instr X) (x : X) (s s' : World) :
  perform i s = Done x s' → goroutines s' = goroutines s ++ spawned i.
Proof.
  destruct i; simpl; unfold answer_watch, open_watch, open_reader;
    intros H; repeat (case_bool_decide || case_match); simplify_eq/=;
    by rewrite ?app_nil_r.
Qed.

Lemma perform_panicked {X : Type} (i : instr X) (msg : string)
    (s s' : World) :
  perform i s = Panicked msg s' → s' = s.
Proof.
  destruct i; simpl; unfold answer_watch, open_watch, open_reader;
    intros H; repeat (case_bool_decide || case_match); by simplify_eq/=.
Qed.

(** A step of a task that fits the bookkeeping is a silent step, or the
    instruction at its head, and the task still fits. *)
Lemma ok_step {A : Type} (m : mode) (Q : mode → A → Prop) (p p' : prog A)
    (s s' : World) :
  ok m Q p →
  (∀ w, m = Dead w → stopped s w = true) →
  step p s = Some (p', s') →
  (s' = s ∧ ok m Q p')
  ∨ ∃ (X : Type) (i : instr X) (x : X) (m' : mode),
      perform i s = Done x s' ∧ after m i x = Some m' ∧ ok m' Q p'.
Proof.
  intros Hok Hdead Hstep. destruct p as [a|msg|X i k|R w ch body k]; simpl in *.
  - done.
  - done.
  - destruct (perform i s) as [x s1| |msg s1] eqn:Hperform; simplify_eq.
    + right. exists X, i, x. specialize (Hok x).
      destruct (after m i x) as [m'|]; [|done]. by exists m'.
    + left. split; [|done]. by eapply perform_panicked.
  - destruct Hok as (I & Hm & Hend & Hbody). left.
    destruct ch as [|ev evs]; [simplify_eq; split; [done|by apply Hend]|].
    destruct (stopped s w) eqn:Hstopped;
      simplify_eq; (split; [done|]); [by apply Hend|].
    apply ok_bind. eapply ok_mono; [|apply Hbody; [done|]].
    + intros m2 [r|] Hr; [done|]. simpl. exists I. by repeat split.
    + intros ->. rewrite (Hdead w eq_refl) in Hstopped. done.
Qed.

(** The modes after task [t] went from [m] to [m'] and spawned [new]. *)
Lemma lookup_update (ms new : list mode) (t j : nat) (m' y : mode) :
  t < length ms →
  (<[t := m']> ms ++ new) !! j = Some y →
  (j = t ∧ y = m') ∨ (j ≠ t ∧ ms !! j = Some y)
  ∨ (length ms ≤ j ∧ new !! (j - length ms) = Some y).
Proof.
  intros Ht Hj. destruct (decide (j < length ms)) as [Hlt|Hge].
  - rewrite lookup_app_l in Hj by (by rewrite length_insert).
    destruct (decide (j = t)) as [->|Hne].
    + rewrite list_lookup_insert_eq in Hj by done. left. by simplify_eq.
    + rewrite list_lookup_insert_ne in Hj by done. right. by left.
  - rewrite lookup_app_r in Hj by (rewrite length_insert; lia).
    rewrite length_insert in Hj. right. right. split; [lia|done].
Qed.

Lemma elem_of_update (ms new : list mode) (t : nat) (m' y : mode) :
  t < length ms →
  y ∈ <[t := m']> ms ++ new →
  y = m' ∨ (∃ j, j ≠ t ∧ ms !! j = Some y) ∨ y ∈ new.
Proof.
  intros Ht [j Hj]%list_elem_of_lookup.
  destruct (lookup_update _ _ _ _ _ _ Ht Hj) as [[_ ->]|[[Hne Hl]|[_ Hl]]].
  - by left.
  - right. left. eauto.
  - right. right. eapply list_elem_of_lookup_2. exact Hl.
Qed.

Lemma elem_of_update_old (ms new : list mode) (t j : nat) (m' y : mode) :
  ms !! j = Some y → j ≠ t → y ∈ <[t := m']> ms ++ new.
Proof.
  intros Hj Hne. apply elem_of_app. left.
  eapply list_elem_of_lookup_2. by rewrite list_lookup_insert_ne.
Qed.

Lemma elem_of_update_new (ms new : list mode) (t : nat) (m' : mode) :
  t < length ms → m' ∈ <[t := m']> ms ++ new.
Proof.
  intros Ht. apply elem_of_app. left.
  eapply list_elem_of_lookup_2. by apply list_lookup_insert_eq.
Qed.

Lemma fits_main (ms : list mode) (flag : bool) (subs : list Subscription)
    (t : nat) (m : mode) :
  good flag subs ms → ms !! t = Some m → main_mode m → t = 0.
Proof.
  intros Hgood Ht Hm. pose proof (g_fits _ _ _ Hgood t m Ht) as Hfits.
  destruct t; [done|]. destruct m; simpl in *; done.
Qed.

Lemma fits_pool (ms : list mode) (flag : bool) (subs : list Subscription)
    (t : nat) (m : mode) :
  good flag subs ms → ms !! t = Some m → pool_mode m → t ≠ 0.
Proof.
  intros Hgood Ht Hm. pose proof (g_fits _ _ _ Hgood t m Ht) as Hfits.
  destruct t; [|done]. destruct m; simpl in *; done.
Qed.

(** Membership in the new modes, traced back to the old ones. *)
Ltac trace_back Ht H :=
  apply (elem_of_update _ _ _ _ _ (lookup_lt_Some _ _ _ Ht)) in H;
  destruct H as [H|[(? & ? & H)|H]];
  [ try discriminate H
  | pose proof (list_elem_of_lookup_2 _ _ _ H)
  | try (apply list_elem_of_singleton in H; try discriminate H);
    try (by apply elem_of_nil in H) ].

(** The main task read the pod flag off. *)
Lemma good_checked (flag : bool) (subs : list Subscription) (ms : list mode)
    (t : nat) :
  good flag subs ms → ms !! t = Some Idle → flag = false →
  good flag subs (<[t := Checked]> ms ++ []).
Proof.
  intros Hgood Ht Hflag.
  pose proof (lookup_lt_Some _ _ _ Ht) as Hlt.
  assert (t = 0) as -> by (by eapply fits_main).
  split.
  - intros j y Hj.
    destruct (lookup_update _ _ _ _ _ _ Hlt Hj) as [[-> ->]|[[Hne Hl]|[_ Hl]]];
      [done|by eapply g_fits|done].
  - intros i j mi mj Hi Hj Hci Hcj.
    destruct (lookup_update _ _ _ _ _ _ Hlt Hi) as [[-> ->]|[[Hne Hl]|[_ Hl]]];
      [done| |done].
    destruct (lookup_update _ _ _ _ _ _ Hlt Hj) as [[-> ->]|[[Hne' Hl']|[_ Hl']]];
      [done| |done].
    by eapply (g_one _ _ _ Hgood).
  - intros k sub Hk Hopen.
    destruct (g_owned _ _ _ Hgood k sub Hk Hopen) as [H|[H|H]];
      apply list_elem_of_lookup in H as [j Hj];
      assert (j ≠ 0) by (intros ->; congruence);
      eauto using elem_of_update_old.
  - intros _. split; [done|]. intros y Hy. trace_back Ht Hy.
    + by subst.
    + destruct y; try done;
        try (rewrite (g_flag _ _ _ Hgood w) in Hflag by auto; done).
      pose proof (fits_main _ _ _ _ _ Hgood Hy I). lia.
  - intros w H. apply (g_flag _ _ _ Hgood w).
    destruct H as [H|[H|H]]; trace_back Ht H; auto.
  - intros w H. apply (g_stopped _ _ _ Hgood w).
    destruct H as [H|H]; trace_back Ht H; auto.
  - intros w H. apply (g_range _ _ _ Hgood w).
    destruct H as [H|[H|H]]; trace_back Ht H; auto.
Qed.

(** The main task set the pod flag for the watch it opened. *)
Lemma good_flagged (flag : bool) (subs : list Subscription) (ms : list mode)
    (t w : nat) :
  good flag subs ms → ms !! t = Some (Opened w) →
  good true subs (<[t := Flagged w]> ms ++ []).
Proof.
  intros Hgood Ht.
  pose proof (lookup_lt_Some _ _ _ Ht) as Hlt.
  assert (Hsole : ∀ j y, ms !! j = Some y → claims y = true → j = t).
  { intros j y Hj Hy. by eapply (g_one _ _ _ Hgood j t y (Opened w)). }
  split.
  - intros j y Hj.
    destruct (lookup_update _ _ _ _ _ _ Hlt Hj) as [[-> ->]|[[Hne Hl]|[_ Hl]]];
      [|by eapply g_fits|done].
    by pose proof (g_fits _ _ _ Hgood t _ Ht).
  - intros i j mi mj Hi Hj Hci Hcj.
    destruct (lookup_update _ _ _ _ _ _ Hlt Hi) as [[-> ->]|[[Hne Hl]|[_ Hl]]];
      destruct (lookup_update _ _ _ _ _ _ Hlt Hj)
        as [[-> ->]|[[Hne' Hl']|[_ Hl']]]; try done.
    + by pose proof (Hsole _ _ Hl' Hcj).
    + by pose proof (Hsole _ _ Hl Hci).
    + by pose proof (Hsole _ _ Hl Hci).
  - intros k sub Hk Hopen.
    destruct (g_owned _ _ _ Hgood k sub Hk Hopen) as [H|[H|H]];
      apply list_elem_of_lookup in H as [j Hj];
      pose proof (Hsole _ _ Hj eq_refl) as ->; simplify_eq.
    right. left. by apply elem_of_update_new.
  - intros H. trace_back Ht H.
    pose proof (fits_main _ _ _ _ _ Hgood H I) as ->.
    pose proof (fits_main _ _ _ _ _ Hgood Ht I). done.
  - done.
  - intros w' H. apply (g_stopped _ _ _ Hgood w').
    destruct H as [H|H]; trace_back Ht H; auto.
  - intros w' H.
    destruct H as [H|[H|H]]; trace_back Ht H; simplify_eq;
      try (eapply (g_range _ _ _ Hgood); by auto).
    eapply (g_range _ _ _ Hgood). left. by eapply list_elem_of_lookup_2.
Qed.

(** A pod watcher cleared the pod flag after its [Stop]. *)
Lemma good_dead (flag : bool) (subs : list Subscription) (ms : list mode)
    (t w : nat) :
  good flag subs ms → ms !! t = Some (Window w) →
  good false subs (<[t := Dead w]> ms ++ []).
Proof.
  intros Hgood Ht.
  pose proof (lookup_lt_Some _ _ _ Ht) as Hlt.
  assert (Hsole : ∀ j y, ms !! j = Some y → claims y = true → j = t).
  { intros j y Hj Hy. by eapply (g_one _ _ _ Hgood j t y (Window w)). }
  assert (Hnone : ∀ y, y ∈ <[t := Dead w]> ms ++ [] → claims y = false).
  { intros y Hy. trace_back Ht Hy; [by subst|].
    destruct (claims y) eqn:Hc; [|done]. by pose proof (Hsole _ _ Hy Hc). }
  split.
  - intros j y Hj.
    destruct (lookup_update _ _ _ _ _ _ Hlt Hj) as [[-> ->]|[[Hne Hl]|[_ Hl]]];
      [|by eapply g_fits|done].
    by pose proof (g_fits _ _ _ Hgood t _ Ht).
  - intros i j mi mj Hi Hj Hci Hcj.
    apply list_elem_of_lookup_2, Hnone in Hi. congruence.
  - intros k sub Hk Hopen.
    destruct (g_owned _ _ _ Hgood k sub Hk Hopen) as [H|[H|H]];
      apply list_elem_of_lookup in H as [j Hj];
      pose proof (Hsole _ _ Hj eq_refl) as ->; simplify_eq.
  - intros _. split; [done|exact Hnone].
  - intros w' H. destruct H as [H|[H|H]]; by apply Hnone in H.
  - intros w' H. destruct H as [H|H]; trace_back Ht H; simplify_eq;
      try (eapply (g_stopped _ _ _ Hgood); by auto).
    eapply (g_stopped _ _ _ Hgood). left. by eapply list_elem_of_lookup_2.
  - intros w' H. destruct H as [H|[H|H]]; by apply Hnone in H.
Qed.

(** A pod watcher stopped its subscription. *)
Lemma good_window (flag : bool) (subs : list Subscription) (ms : list mode)
    (t w : nat) (sub : Subscription) :
  good flag subs ms → ms !! t = Some (Live w) →
  subs !! w = Some sub → 0 < s_stops sub →
  good flag subs (<[t := Window w]> ms ++ []).
Proof.
  intros Hgood Ht Hsub Hstops.
  pose proof (lookup_lt_Some _ _ _ Ht) as Hlt.
  assert (Hsole : ∀ j y, ms !! j = Some y → claims y = true → j = t).
  { intros j y Hj Hy. by eapply (g_one _ _ _ Hgood j t y (Live w)). }
  split.
  - intros j y Hj.
    destruct (lookup_update _ _ _ _ _ _ Hlt Hj) as [[-> ->]|[[Hne Hl]|[_ Hl]]];
      [|by eapply g_fits|done].
    by pose proof (g_fits _ _ _ Hgood t _ Ht).
  - intros i j mi mj Hi Hj Hci Hcj.
    destruct (lookup_update _ _ _ _ _ _ Hlt Hi) as [[-> ->]|[[Hne Hl]|[_ Hl]]];
      destruct (lookup_update _ _ _ _ _ _ Hlt Hj)
        as [[-> ->]|[[Hne' Hl']|[_ Hl']]]; try done.
    + by pose proof (Hsole _ _ Hl' Hcj).
    + by pose proof (Hsole _ _ Hl Hci).
    + by pose proof (Hsole _ _ Hl Hci).
  - intros k sub' Hk Hopen.
    destruct (g_owned _ _ _ Hgood k sub' Hk Hopen) as [H|[H|H]];
      apply list_elem_of_lookup in H as [j Hj];
      pose proof (Hsole _ _ Hj eq_refl) as ->; simplify_eq.
    unfold open_subscription in Hopen.
    apply andb_prop in Hopen as [_ Hzero%bool_decide_eq_true]. lia.
  - intros H. trace_back Ht H.
    destruct (g_checked _ _ _ Hgood H1) as [_ Hnone].
    by pose proof (Hnone _ (list_elem_of_lookup_2 _ _ _ Ht)).
  - intros w' H. apply (g_flag _ _ _ Hgood w).
    right. left. by eapply list_elem_of_lookup_2.
  - intros w' H. destruct H as [H|H]; trace_back Ht H; simplify_eq;
      try (eapply (g_stopped _ _ _ Hgood); by auto).
    eauto.
  - intros w' H. destruct H as [H|[H|H]]; trace_back Ht H; simplify_eq;
      try (eapply (g_range _ _ _ Hgood); by auto).
Qed.

(** The main task spawned the pod watcher of the watch it flagged. *)
Lemma good_go_pod (flag : bool) (subs : list Subscription) (ms : list mode)
    (t w : nat) :
  good flag subs ms → ms !! t = Some (Flagged w) →
  good flag subs (<[t := Idle]> ms ++ [Live w]).
Proof.
  intros Hgood Ht.
  pose proof (lookup_lt_Some _ _ _ Ht) as Hlt.
  assert (Hsole : ∀ j y, ms !! j = Some y → claims y = true → j = t).
  { intros j y Hj Hy. by eapply (g_one _ _ _ Hgood j t y (Flagged w)). }
  assert (Hnew : Live w ∈ <[t := Idle]> ms ++ [Live w]).
  { apply elem_of_app. right. by apply list_elem_of_singleton. }
  split.
  - intros j y Hj.
    destruct (lookup_update _ _ _ _ _ _ Hlt Hj) as [[-> ->]|[[Hne Hl]|[Hge Hl]]];
      [|by eapply g_fits|].
    + by pose proof (g_fits _ _ _ Hgood t _ Ht).
    + apply list_lookup_singleton_Some in Hl as [_ <-].
      destruct j; [lia|done].
  - intros i j mi mj Hi Hj Hci Hcj.
    destruct (lookup_update _ _ _ _ _ _ Hlt Hi) as [[-> ->]|[[Hne Hl]|[Hge Hl]]];
      destruct (lookup_update _ _ _ _ _ _ Hlt Hj)
        as [[-> ->]|[[Hne' Hl']|[Hge' Hl']]]; try done.
    + by pose proof (Hsole _ _ Hl Hci).
    + by pose proof (Hsole _ _ Hl Hci).
    + by pose proof (Hsole _ _ Hl' Hcj).
    + apply list_lookup_singleton_Some in Hl as [Hi0 _].
      apply list_lookup_singleton_Some in Hl' as [Hj0 _]. lia.
  - intros k sub Hk Hopen.
    destruct (g_owned _ _ _ Hgood k sub Hk Hopen) as [H|[H|H]];
      apply list_elem_of_lookup in H as [j Hj];
      pose proof (Hsole _ _ Hj eq_refl) as ->; simplify_eq.
    by right; right.
  - intros H. trace_back Ht H.
    pose proof (fits_main _ _ _ _ _ Hgood H I) as ->.
    pose proof (fits_main _ _ _ _ _ Hgood Ht I). done.
  - intros w' H. apply (g_flag _ _ _ Hgood w). left.
    by eapply list_elem_of_lookup_2.
  - intros w' H. destruct H as [H|H]; trace_back Ht H; simplify_eq;
      try (eapply (g_stopped _ _ _ Hgood); by auto).
  - intros w' H. destruct H as [H|[H|H]]; trace_back Ht H; simplify_eq;
      try (eapply (g_range _ _ _ Hgood); by auto).
    eapply (g_range _ _ _ Hgood). right. left.
    by eapply list_elem_of_lookup_2.
Qed.

(** A task spawned a log task. *)
Lemma good_go_logs (flag : bool) (subs : list Subscription) (ms : list mode) :
  good flag subs ms → ms ≠ [] → good flag subs (ms ++ [Other]).
Proof.
  intros Hgood Hne.
  assert (Hold : ∀ y, y ∈ ms ++ [Other] → y = Other ∨ y ∈ ms).
  { intros y [Hy|Hy]%elem_of_app; [by right|].
    left. by apply list_elem_of_singleton in Hy. }
  split.
  - intros j y Hj. apply lookup_app_Some in Hj as [Hj|[Hge Hj]].
    + by eapply g_fits.
    + apply list_lookup_singleton_Some in Hj as [_ <-].
      destruct j; [|done]. destruct ms; [done|simpl in Hge; lia].
  - intros i j mi mj Hi Hj Hci Hcj.
    apply lookup_app_Some in Hi as [Hi|[_ Hi]];
      [|apply list_lookup_singleton_Some in Hi as [_ <-]; done].
    apply lookup_app_Some in Hj as [Hj|[_ Hj]];
      [|apply list_lookup_singleton_Some in Hj as [_ <-]; done].
    by eapply (g_one _ _ _ Hgood).
  - intros k sub Hk Hopen.
    destruct (g_owned _ _ _ Hgood k sub Hk Hopen) as [H|[H|H]];
      [left|right; left|right; right]; apply elem_of_app; by left.
  - intros H. apply Hold in H as [H|H]; [done|].
    destruct (g_checked _ _ _ Hgood H) as [Hflag Hnone].
    split; [done|]. intros y [->|Hy]%Hold; [done|by apply Hnone].
  - intros w H. apply (g_flag _ _ _ Hgood w).
    destruct H as [H|[H|H]]; apply Hold in H as [H|H]; auto; done.
  - intros w H. apply (g_stopped _ _ _ Hgood w).
    destruct H as [H|H]; apply Hold in H as [H|H]; auto; done.
  - intros w H. apply (g_range _ _ _ Hgood w).
    destruct H as [H|[H|H]]; apply Hold in H as [H|H]; auto; done.
Qed.

(** The cluster opened a job subscription. *)
Lemma good_jobs_opened (flag : bool) (subs : list Subscription)
    (ms : list mode) :
  good flag subs ms →
  good flag (subs ++ [{| s_kind := JobsKind; s_stops := 0 |}]) ms.
Proof.
  intros Hgood. split; try apply Hgood.
  - intros k sub Hk Hopen. apply lookup_app_Some in Hk as [Hk|[_ Hk]].
    + by eapply (g_owned _ _ _ Hgood).
    + apply list_lookup_singleton_Some in Hk as [_ <-]. done.
  - intros w H. destruct (g_stopped _ _ _ Hgood w H) as (sub & Hsub & Hstops).
    exists sub. split; [|done]. by apply lookup_app_l_Some.
  - intros w H. rewrite length_app. pose proof (g_range _ _ _ Hgood w H). lia.
Qed.

(** The cluster opened a pod subscription for the main task, which had
    read the pod flag off. *)
Lemma good_opened (flag : bool) (subs : list Subscription) (ms : list mode)
    (t : nat) :
  good flag subs ms → ms !! t = Some Checked →
  good flag (subs ++ [{| s_kind := PodsKind; s_stops := 0 |}])
       (<[t := Opened (length subs)]> ms ++ []).
Proof.
  intros Hgood Ht.
  pose proof (lookup_lt_Some _ _ _ Ht) as Hlt.
  destruct (g_checked _ _ _ Hgood (list_elem_of_lookup_2 _ _ _ Ht))
    as [Hflag Hnone].
  split.
  - intros j y Hj.
    destruct (lookup_update _ _ _ _ _ _ Hlt Hj) as [[-> ->]|[[Hne Hl]|[_ Hl]]];
      [|by eapply g_fits|done].
    by pose proof (g_fits _ _ _ Hgood t _ Ht).
  - intros i j mi mj Hi Hj Hci Hcj.
    destruct (lookup_update _ _ _ _ _ _ Hlt Hi) as [[-> ->]|[[Hne Hl]|[_ Hl]]];
      destruct (lookup_update _ _ _ _ _ _ Hlt Hj)
        as [[-> ->]|[[Hne' Hl']|[_ Hl']]]; try done.
    + apply list_elem_of_lookup_2, Hnone in Hl'. congruence.
    + apply list_elem_of_lookup_2, Hnone in Hl. congruence.
    + apply list_elem_of_lookup_2, Hnone in Hl. congruence.
  - intros k sub Hk Hopen. apply lookup_app_Some in Hk as [Hk|[Hge Hk]].
    + destruct (g_owned _ _ _ Hgood k sub Hk Hopen) as [H|[H|H]];
        by apply Hnone in H.
    + apply list_lookup_singleton_Some in Hk as [Hk _].
      assert (k = length subs) as -> by lia.
      left. by apply elem_of_update_new.
  - intros H. trace_back Ht H.
    pose proof (fits_main _ _ _ _ _ Hgood H I) as ->.
    pose proof (fits_main _ _ _ _ _ Hgood Ht I). done.
  - intros w H. destruct H as [H|[H|H]]; trace_back Ht H;
      match goal with Hin : _ ∈ ms |- _ => by apply Hnone in Hin end.
  - intros w H.
    assert (Hw : Window w ∈ ms ∨ Dead w ∈ ms)
      by (destruct H as [H|H]; trace_back Ht H; auto).
    destruct (g_stopped _ _ _ Hgood w Hw) as (sub & Hsub & Hstops).
    exists sub. split; [|done]. by apply lookup_app_l_Some.
  - intros w H. rewrite length_app. simpl.
    destruct H as [H|[H|H]]; trace_back Ht H; simplify_eq; try lia;
      match goal with Hin : _ ∈ ms |- _ => by apply Hnone in Hin end.
Qed.

(** [Stop] on any subscription. *)
Lemma good_stop (flag : bool) (subs : list Subscription) (ms : list mode)
    (w : nat) :
  good flag subs ms → good flag (alter stop_subscription w subs) ms.
Proof.
  intros Hgood. split; try apply Hgood.
  - intros k sub Hk Hopen. rewrite list_lookup_alter in Hk.
    case_decide as Hkw.
    + subst k. destruct (subs !! w) as [old|] eqn:Hold; [|done].
      injection Hk as <-. unfold open_subscription in Hopen.
      apply andb_prop in Hopen as [_ Hzero].
      apply bool_decide_eq_true in Hzero. simpl in Hzero. lia.
    + by eapply (g_owned _ _ _ Hgood).
  - intros w' H. destruct (g_stopped _ _ _ Hgood w' H) as (sub & Hsub & Hstops).
    rewrite list_lookup_alter. case_decide as Hww.
    + subst w'. rewrite Hsub. simpl. eexists. split; [done|]. simpl. lia.
    + eauto.
  - intros w' H. rewrite length_alter. by apply (g_range _ _ _ Hgood).
Qed.

Lemma status_other_key (s : World) (key : string) (b : bool) :
  key ≠ PodWatcherStatusKey →
  status (set_status (λ m, <[key := b]> m) s) PodWatcherStatusKey
  = status s PodWatcherStatusKey.
Proof. intros Hne. unfold status. simpl. by rewrite lookup_insert_ne. Qed.

(** One instruction of task [t] keeps the modes fitting. *)
Lemma good_perform {X : Type} (i : instr X) (x : X) (s s' : World)
    (ms : list mode) (t : nat) (m m' : mode) :
  good (status s PodWatcherStatusKey) (subscriptions s) ms →
  ms !! t = Some m →
  perform i s = Done x s' →
  after m i x = Some m' →
  good (status s' PodWatcherStatusKey) (subscriptions s')
       (<[t := m']> ms ++ (born <$> spawned i)).
Proof.
  intros Hgood Ht Hperform Hafter.
  assert (Hframe : good (status s PodWatcherStatusKey) (subscriptions s)
                     (<[t := m]> ms ++ [])).
  { by rewrite list_insert_id, app_nil_r. }
  destruct i; simpl in Hperform, Hafter |- *;
    unfold answer_watch, open_watch, open_reader in Hperform;
    try (simplify_eq; exact Hframe).
  - (* MapRead *)
    injection Hperform as <- <-.
    case_bool_decide as Hkey; [|simplify_eq; exact Hframe].
    subst key. fold (status s PodWatcherStatusKey) in Hafter.
    destruct m, (status s PodWatcherStatusKey) eqn:Hflag;
      simplify_eq; try exact Hframe.
    by apply good_checked.
  - (* MapWrite *)
    simplify_eq. case_bool_decide as Hkey.
    + subst key. rewrite status_insert.
      destruct m, b; simplify_eq.
      * destruct (g_checked _ _ _ Hgood (list_elem_of_lookup_2 _ _ _ Ht))
          as [Hflag _].
        rewrite Hflag in Hframe. exact Hframe.
      * by eapply good_flagged.
      * by eapply good_dead.
    + simplify_eq. rewrite status_other_key by done. exact Hframe.
  - (* WgAdd *)
    case_bool_decide; simplify_eq; exact Hframe.
  - (* WgWait *)
    case_bool_decide; simplify_eq. exact Hframe.
  - (* Stop *)
    simplify_eq. simpl.
    change (status (set_subscriptions _ s) PodWatcherStatusKey)
      with (status s PodWatcherStatusKey).
    pose proof (good_stop _ _ _ w Hgood) as Hstop.
    destruct m; simplify_eq;
      try (by rewrite list_insert_id, app_nil_r).
    case_bool_decide as Hw; simplify_eq;
      [|by rewrite list_insert_id, app_nil_r].
    assert (Hlt : w0 < length (subscriptions s)).
    { apply (g_range _ _ _ Hgood). right. right.
      by eapply list_elem_of_lookup_2. }
    destruct (lookup_lt_is_Some_2 _ _ Hlt) as [old Hold].
    eapply (good_window _ _ _ _ _ (stop_subscription old)); [done|done| |].
    + by rewrite list_lookup_alter, decide_True, Hold.
    + simpl. lia.
  - (* Go *)
    simplify_eq.
    change (status (set_goroutines _ s) PodWatcherStatusKey)
      with (status s PodWatcherStatusKey).
    destruct g as [p watcher|p podName]; simpl.
    + destruct m; simplify_eq. case_bool_decide; simplify_eq.
      by apply good_go_pod.
    + simplify_eq. rewrite list_insert_id by done.
      apply good_go_logs; [done|]. intros ->. done.
  - (* WatchJobs *)
    destruct (k_watchJobs _ _ _ _); simplify_eq; simpl; [|exact Hframe].
    rewrite list_insert_id, app_nil_r by done.
    by apply good_jobs_opened.
  - (* WatchPods *)
    destruct m; try done.
    destruct (k_watchPods _ _ _ _); simplify_eq; simpl; [|exact Hframe].
    by apply good_opened.
  - (* Stream *)
    destruct (k_getLogs _ _ _ _); simplify_eq; exact Hframe.
Qed.

Lemma started_spawned {X : Type} (i : instr X) (x : X) (s s' : World) :
  perform i s = Done x s' → started s s' = goroutine_body <$> spawned i.
Proof.
  intros Hperform. unfold started.
  by rewrite (perform_goroutines _ _ _ _ Hperform), drop_app_length.
Qed.

Lemma started_nothing (s : World) : started s s = [].
Proof. unfold started. by rewrite drop_all. Qed.

Lemma born_ok (gs : list Goroutine) :
  Forall2 (λ m g, ok m (λ _ _, True) g) (born <$> gs) (goroutine_body <$> gs).
Proof.
  induction gs as [|g gs IH]; [constructor|].
  constructor; [apply goroutine_body_ok|exact IH].
Qed.

(** Every step of every task keeps the invariant. *)
Lemma invariant_step (t : Task) (c c' : Config) :
  invariant c → sched_step t c = Some c' → invariant c'.
Proof.
  intros (mm & pm & Hgood & Hmain & Hpool) Hstep.
  unfold sched_step in Hstep. destruct (over c); [done|].
  destruct t as [|n].
  - destruct (step (main c) (world c)) as [[p s']|] eqn:Hp; simplify_eq.
    assert (Hdead : ∀ w, mm = Dead w → stopped (world c) w = true).
    { intros w ->. by pose proof (g_fits _ _ _ Hgood 0 _ eq_refl). }
    destruct (ok_step _ _ _ _ _ _ Hmain Hdead Hp)
      as [[-> Hok]|(X & i & x & m' & Hperform & Hafter & Hok)].
    + exists mm, pm. simpl. rewrite started_nothing, app_nil_r. done.
    + exists m', (pm ++ (born <$> spawned i)). simpl.
      split; [|split; [done|]].
      * exact (good_perform i x _ _ (mm :: pm) 0 mm m' Hgood eq_refl
                 Hperform Hafter).
      * rewrite (started_spawned _ _ _ _ Hperform).
        apply Forall2_app; [done|apply born_ok].
  - destruct (pool c !! n) as [g|] eqn:Hg; [|done].
    destruct (step g (world c)) as [[g' s']|] eqn:Hp; simplify_eq.
    destruct (Forall2_lookup_r _ _ _ _ _ Hpool Hg) as (m & Hm & Hok).
    assert (Hdead : ∀ w, m = Dead w → stopped (world c) w = true).
    { intros w ->.
      destruct (g_stopped _ _ _ Hgood w) as (sub & Hsub & Hstops).
      - right. apply list_elem_of_lookup. by exists (S n).
      - unfold stopped, stops. rewrite Hsub. by apply bool_decide_eq_true. }
    destruct (ok_step _ _ _ _ _ _ Hok Hdead Hp)
      as [[-> Hok']|(X & i & x & m' & Hperform & Hafter & Hok')].
    + exists mm, pm. simpl. rewrite started_nothing, app_nil_r.
      split; [done|]. split; [done|].
      rewrite <- (list_insert_id pm n m) by done.
      by apply Forall2_insert.
    + exists mm, (<[n := m']> pm ++ (born <$> spawned i)). simpl.
      split; [|split; [done|]].
      * exact (good_perform i x _ _ (mm :: pm) (S n) m m' Hgood Hm
                 Hperform Hafter).
      * rewrite (started_spawned _ _ _ _ Hperform).
        apply Forall2_app; [by apply Forall2_insert|apply born_ok].
Qed.

Lemma invariant_start (k : Cluster) (kubeConfigPath : string)
    (plugin : Plugin) :
  invariant (start k kubeConfigPath plugin).
Proof.
  exists Idle, []. split; [|split; [apply run_ok|constructor]].
  split.
  - intros [|t] m Hm; simpl in Hm; [by simplify_eq|].
    by rewrite lookup_nil in Hm.
  - intros [|i] [|j] mi mj Hi Hj; simpl in Hi, Hj;
      rewrite ?lookup_nil in Hi, Hj; by simplify_eq.
  - intros k' sub Hk. simpl in Hk. by rewrite lookup_nil in Hk.
  - intros H. apply list_elem_of_singleton in H. done.
  - intros w [H|[H|H]]; apply list_elem_of_singleton in H; done.
  - intros w [H|H]; apply list_elem_of_singleton in H; done.
  - intros w [H|[H|H]]; apply list_elem_of_singleton in H; done.
Qed.

Lemma invariant_reachable (c0 c : Config) :
  invariant c0 → reachable c0 c → invariant c.
Proof.
  intros Hinv [ts Hts]. revert c0 Hinv Hts.
  induction ts as [|t ts IH]; intros c0 Hinv Hts; simpl in Hts.
  - by simplify_eq.
  - destruct (sched_step t c0) as [c1|] eqn:Hstep; [|done].
    eapply IH; [|exact Hts]. by eapply invariant_step.
Qed.

Lemma filter_none {A : Type} (P : A → bool) (l : list A) :
  (∀ x, x ∈ l → P x = false) → filter (λ x, P x) l = [].
Proof.
  induction l as [|a l IH]; intros Hnone; [done|].
  rewrite filter_cons, decide_False.
  - apply IH. intros x Hx. apply Hnone, elem_of_cons. by right.
  - intros Ha%Is_true_eq_true.
    rewrite Hnone in Ha; [done|]. apply elem_of_cons. by left.
Qed.

(** A list in which any two elements that satisfy [P] are at the same
    place holds at most one of them. *)
Lemma filter_at_most_one {A : Type} (P : A → bool) (l : list A) :
  (∀ i j x y, l !! i = Some x → l !! j = Some y →
              P x = true → P y = true → i = j) →
  length (filter (λ x, P x) l) ≤ 1.
Proof.
  induction l as [|a l IH]; intros Hone; [simpl; lia|].
  rewrite filter_cons. case_decide as Ha.
  - apply Is_true_eq_true in Ha. rewrite filter_none; [simpl; lia|].
    intros y [j Hj]%list_elem_of_lookup.
    destruct (P y) eqn:Hy; [|done].
    by pose proof (Hone 0 (S j) a y eq_refl Hj Ha Hy).
  - apply IH. intros i j x y Hi Hj Hx Hy.
    pose proof (Hone (S i) (S j) x y Hi Hj Hx Hy). lia.
Qed.

(** The invariant leaves room for one open pod subscription. *)
Lemma invariant_one_pod_watch (c : Config) :
  invariant c → open_watchers PodsKind (world c) ≤ 1.
Proof.
  intros (mm & pm & Hgood & _). unfold open_watchers.
  apply filter_at_most_one. intros k1 k2 sub1 sub2 Hk1 Hk2 Hopen1 Hopen2.
  assert (Howner : ∀ k sub,
    subscriptions (world c) !! k = Some sub →
    open_subscription PodsKind sub = true →
    ∃ i m, (mm :: pm) !! i = Some m ∧ claims m = true
           ∧ (m = Opened k ∨ m = Flagged k ∨ m = Live k)).
  { intros k sub Hk Hopen.
    destruct (g_owned _ _ _ Hgood k sub Hk Hopen) as [H|[H|H]];
      apply list_elem_of_lookup in H as [i Hi]; exists i; eauto 10. }
  destruct (Howner _ _ Hk1 Hopen1) as (i & m1 & Hi & Hc1 & Hm1).
  destruct (Howner _ _ Hk2 Hopen2) as (j & m2 & Hj & Hc2 & Hm2).
  pose proof (g_one _ _ _ Hgood i j m1 m2 Hi Hj Hc1 Hc2) as ->.
  rewrite Hi in Hj. injection Hj as <-.
  destruct Hm1 as [->|[->| ->]]; destruct Hm2 as [H|[H|H]]; by simplify_eq.
Qed.

(** A pod Deleted event makes the pod watcher stop its subscription and
    clear the pod flag. *)
Lemma handlePodEvent_deleted (p : Plugin) (watcher : Watcher) (pod : Pod)
    (s : World) :
  wid watcher < length (subscriptions s) →
  ∃ s',
    exec (handlePodEvent p {| e_Type := Deleted; e_Object := ObjPod pod |}
            watcher) s = Done () s'
    ∧ status s' PodWatcherStatusKey = false
    ∧ stops s' (wid watcher) = S (stops s (wid watcher))
    ∧ goroutines s' = goroutines s
    ∧ wg s' = wg s.
Proof.
  intros Hsub. eexists. split; [unfold handlePodEvent; cbn; reflexivity|].
  split; [apply status_insert|]. split; [|done].
  unfold stops. simpl. rewrite list_lookup_alter, decide_True by done.
  by destruct (lookup_lt_is_Some_2 _ _ Hsub) as [sub ->].
Qed.

(** C5, amended: at any time of any run at most one pod subscription is
    open (opened and not stopped).  A sequence of N ≥ 1 qualifying job
    Modified events, handled from a state in which the pod flag is off and
    the pod watch opens, opens one pod watch and spawns exactly one pod
    watcher: the first event spawns it after [WatchPod] set the flag, the
    later ones find the flag on.  A pod Deleted event makes the pod
    watcher stop its subscription and clear the flag, so that the next
    qualifying job event spawns a pod watcher again. *)
Theorem C5_one_open_pod_watch (p : Plugin) :
  (∀ (k : Cluster) (kubeConfigPath : string) (c : Config),
     reachable (start k kubeConfigPath p) c →
     open_watchers PodsKind (world c) ≤ 1)
  ∧ (∀ (watcher : Watcher) (ev : Event) (evs pods : list Event) (s : World),
       Forall qualifying (ev :: evs) →
       status s PodWatcherStatusKey = false →
       stopped s (wid watcher) = false →
       k_watchPods (cluster s) (length (calls s)) (Namespace p)
         {| lo_Watch := false; lo_LabelSelector := selector p |} = OK pods →
       (0 ≤ wg s)%Z →
       ∃ s',
         exec (job_loop p watcher (ev :: evs)) s = Done None s'
         ∧ goroutines s'
           = goroutines s
             ++ [GoPodEvents p {| wid := length (subscriptions s);
                                  ResultChan := pods |}]
         ∧ calls s'
           = calls s
             ++ [CallWatchPods (Namespace p)
                   {| lo_Watch := false; lo_LabelSelector := selector p |}]
         ∧ open_watchers PodsKind s' = S (open_watchers PodsKind s)
         ∧ status s' PodWatcherStatusKey = true)
  ∧ (∀ (watcher : Watcher) (pod : Pod) (s : World),
       wid watcher < length (subscriptions s) →
       ∃ s',
         exec (handlePodEvent p
                 {| e_Type := Deleted; e_Object := ObjPod pod |} watcher) s
         = Done () s'
         ∧ status s' PodWatcherStatusKey = false
         ∧ stops s' (wid watcher) = S (stops s (wid watcher))).
Proof.
  split; [|split].
  - intros k path c Hreach. apply invariant_one_pod_watch.
    eapply invariant_reachable; [apply invariant_start|exact Hreach].
  - intros watcher ev evs pods s Hevs Hflag Hopen Hwatch Hwg.
    apply Forall_cons in Hevs as [(job & -> & Hf & Hs) Hevs].
    destruct (handleJobEvent_spawns p watcher job pods s Hf Hs Hflag Hwatch Hwg)
      as (s1 & Hrun & Hwg1 & Hgo1 & Hsubs1 & Hflag1 & _ & Hcalls1).
    destruct (job_loop_watched p watcher evs s1 Hevs Hflag1)
      as (s' & Hrun' & _ & Hgo' & Hsubs' & Hmap' & Hcalls').
    exists s'. split.
    { unfold job_loop in *. rewrite exec_ForRange_cons, Hopen.
      rewrite exec_mbind, Hrun. cbv beta iota. by rewrite exec_Ret. }
    split; [congruence|]. split; [congruence|]. split.
    + unfold open_watchers. rewrite Hsubs', Hsubs1, filter_app, length_app.
      simpl. lia.
    + unfold status in *. by rewrite Hmap'.
  - intros watcher pod s Hsub.
    destruct (handlePodEvent_deleted p watcher pod s Hsub)
      as (s' & Hrun & Hflag & Hstops & _). eauto.
Qed.

Lemma C5_witness :
  open_watchers PodsKind (world respawned) ≤ 1
  ∧ ∃ s',
      exec (job_loop sample_plugin
              (job_watcher [job_event Modified 0 0; job_event Modified 0 0])
              [job_event Modified 0 0; job_event Modified 0 0])
           (watching_world plain_cluster) = Done None s'
      ∧ length (goroutines s') = 1.
Proof.
  split.
  - apply (proj1 (C5_one_open_pod_watch sample_plugin)
             (scenario_cluster [job_event Modified 0 0; job_event Modified 0 0]
                (OK [pod_event Deleted "pod-1"]) (Err "no logs"))
             "/tmp/.kube/config").
    exists respawn. unfold respawned.
    assert (Hsome : match sched respawn pod_deleted_between with
                    | Some _ => true
                    | None => false
                    end = true) by (vm_compute; reflexivity).
    fold pod_deleted_between.
    destruct (sched respawn pod_deleted_between); [reflexivity|discriminate].
  - destruct (proj1 (proj2 (C5_one_open_pod_watch sample_plugin))
                (job_watcher [job_event Modified 0 0; job_event Modified 0 0])
                (job_event Modified 0 0) [job_event Modified 0 0] []
                (watching_world plain_cluster))
      as (s' & Hrun & Hgo & _).
    + repeat constructor; exists (reported_job 0 0);
        (split; [reflexivity|split; simpl; lia]).
    + reflexivity.
    + reflexivity.
    + reflexivity.
    + simpl. lia.
    + exists s'. split; [exact Hrun|]. rewrite Hgo. reflexivity.
Defined.

(** * Further properties of the code *)

(** ** Events the watchers do not act on *)

(** A job event whose payload is not a job (a watch error carries a
    status object) panics in [handleJobEvent], whatever its type, before
    anything is logged or changed, and [JobEvents] panics with it. *)
Theorem handleJobEvent_foreign_payload_panics (p : Plugin) (event : Event)
    (watcher : Watcher) (rest : list Event) (s : World) :
  (∀ job, e_Object event ≠ ObjJob job) →
  ResultChan watcher = event :: rest →
  stopped s (wid watcher) = false →
  ∃ msg,
    exec (handleJobEvent p event watcher) s = Panicked msg s
    ∧ exec (JobEvents p watcher) s = Panicked msg s.
Proof.
  intros Hforeign Hchan Hopen.
  assert (Hpanic : ∃ msg, handleJobEvent p event watcher = Panic msg).
  { unfold handleJobEvent. destruct (e_Object event) as [job| |]; eauto.
    by destruct (Hforeign job). }
  destruct Hpanic as [msg Hpanic]. exists msg. split.
  - by rewrite Hpanic.
  - unfold JobEvents, job_loop.
    rewrite exec_mbind, Hchan, exec_ForRange_cons, Hopen, exec_mbind.
    by rewrite Hpanic.
Qed.

Lemma handleJobEvent_foreign_payload_panics_witness :
  ∃ msg,
    exec (JobEvents sample_plugin
            (job_watcher [ {| e_Type := Error;
                              e_Object := ObjStatus "too old resource version" |} ]))
         (watching_world plain_cluster)
    = Panicked msg (watching_world plain_cluster).
Proof.
  destruct (handleJobEvent_foreign_payload_panics sample_plugin
              {| e_Type := Error;
                 e_Object := ObjStatus "too old resource version" |}
              (job_watcher [ {| e_Type := Error;
                                e_Object := ObjStatus "too old resource version" |} ])
              [] (watching_world plain_cluster))
    as (msg & _ & Hrun).
  - intros job. discriminate.
  - reflexivity.
  - reflexivity.
  - exists msg. exact Hrun.
Defined.

(** The same in the pod watcher: a pod event whose payload is not a pod
    panics in [handlePodEvent]. *)
Theorem handlePodEvent_foreign_payload_panics (p : Plugin) (event : Event)
    (watcher : Watcher) (s : World) :
  (∀ pod, e_Object event ≠ ObjPod pod) →
  ∃ msg, exec (handlePodEvent p event watcher) s = Panicked msg s.
Proof.
  intros Hforeign. unfold handlePodEvent.
  destruct (e_Object event) as [|pod|]; eauto. by destruct (Hforeign pod).
Qed.

Lemma handlePodEvent_foreign_payload_panics_witness :
  ∃ msg,
    exec (handlePodEvent sample_plugin
            {| e_Type := Error; e_Object := ObjStatus "gone" |}
            {| wid := 1; ResultChan := [] |})
         (watching_world plain_cluster)
    = Panicked msg (watching_world plain_cluster).
Proof.
  apply (handlePodEvent_foreign_payload_panics sample_plugin
           {| e_Type := Error; e_Object := ObjStatus "gone" |}
           {| wid := 1; ResultChan := [] |} (watching_world plain_cluster)).
  intros pod. discriminate.
Defined.

Lemma same_state_refl (s : World) : same_state s s.
Proof. by repeat split. Qed.

Lemma same_state_trans (s1 s2 s3 : World) :
  same_state s1 s2 → same_state s2 s3 → same_state s1 s3.
Proof.
  intros (?&?&?&?&?&?&?&?) (?&?&?&?&?&?&?&?). repeat split; congruence.
Qed.

(** A job event of type Added or Error, or of a type the switch does not
    know, is only logged: [handleJobEvent] returns nil and leaves the
    flags, the WaitGroup, the subscriptions, the call log and the
    goroutines as they are. *)
Theorem handleJobEvent_only_logs (p : Plugin) (type : EventType) (job : Job)
    (watcher : Watcher) (s : World) :
  type ≠ Modified → type ≠ Deleted →
  ∃ s',
    exec (handleJobEvent p {| e_Type := type; e_Object := ObjJob job |}
            watcher) s = Done None s'
    ∧ same_state s s'
    ∧ length (logs s') = 2 + length (logs s).
Proof.
  intros Hm Hd. unfold handleJobEvent.
  destruct type; try done; cbn; eexists; (split; [reflexivity|]);
    (split; [by repeat split|]); simpl;
    rewrite !length_app; simpl; lia.
Qed.

Lemma handleJobEvent_only_logs_witness :
  ∃ s',
    exec (handleJobEvent sample_plugin (job_event (OtherType "BOOKMARK") 0 0)
            (job_watcher [])) (watching_world plain_cluster) = Done None s'
    ∧ same_state (watching_world plain_cluster) s'.
Proof.
  destruct (handleJobEvent_only_logs sample_plugin (OtherType "BOOKMARK")
              (reported_job 0 0) (job_watcher [])
              (watching_world plain_cluster)) as (s' & Hrun & Hsame & _).
  - discriminate.
  - discriminate.
  - exists s'. split; [exact Hrun|exact Hsame].
Defined.

(** The same for a pod event of another type than Modified and Deleted. *)
Theorem handlePodEvent_only_logs (p : Plugin) (type : EventType) (pod : Pod)
    (watcher : Watcher) (s : World) :
  type ≠ Modified → type ≠ Deleted →
  ∃ s',
    exec (handlePodEvent p {| e_Type := type; e_Object := ObjPod pod |}
            watcher) s = Done () s'
    ∧ same_state s s'
    ∧ length (logs s') = 1 + length (logs s).
Proof.
  intros Hm Hd. unfold handlePodEvent.
  destruct type; try done; cbn; eexists; (split; [reflexivity|]);
    (split; [by repeat split|]); simpl;
    rewrite !length_app; simpl; lia.
Qed.

Lemma handlePodEvent_only_logs_witness :
  ∃ s',
    exec (handlePodEvent sample_plugin (pod_event Added "pod-1")
            {| wid := 1; ResultChan := [] |})
         (watching_world plain_cluster) = Done () s'
    ∧ same_state (watching_world plain_cluster) s'.
Proof.
  destruct (handlePodEvent_only_logs sample_plugin Added
              {| p_Name := "pod-1"; p_Phase := "Running" |}
              {| wid := 1; ResultChan := [] |}
              (watching_world plain_cluster)) as (s' & Hrun & Hsame & _).
  - discriminate.
  - discriminate.
  - exists s'. split; [exact Hrun|exact Hsame].
Defined.

(** ** The ends of the watch loops *)

Lemma handleJobEvent_deleted (p : Plugin) (watcher : Watcher) (job : Job)
    (s : World) :
  exec (handleJobEvent p {| e_Type := Deleted; e_Object := ObjJob job |}
          watcher) s
  = Done None
      (set_subscriptions (alter stop_subscription (wid watcher))
         (set_logs (λ ls, ls ++ [(DebugLevel, "closing the job watcher")])
            (set_logs (λ ls, ls ++ [(DebugLevel, "job deleted; name: [ %s ]")])
               (set_logs
                  (λ ls, ls ++ [(DebugLevel,
                     "received JOB event with payload type [ %s ]")])
                  s)))).
Proof. reflexivity. Qed.

(** A job Deleted event, reached on an open subscription, stops the job
    subscription once and ends [JobEvents] with nil; the events behind it
    are not handled. *)
Theorem job_deleted_ends_run (p : Plugin) (watcher : Watcher) (job : Job)
    (pre post : list Event) (s s1 : World) :
  ResultChan watcher
  = pre ++ {| e_Type := Deleted; e_Object := ObjJob job |} :: post →
  exec (job_loop p watcher pre) s = Done None s1 →
  wid watcher < length (subscriptions s1) →
  stopped s1 (wid watcher) = false →
  ∃ s2,
    exec (JobEvents p watcher) s = Done None s2
    ∧ stops s2 (wid watcher) = 1
    ∧ goroutines s2 = goroutines s1
    ∧ calls s2 = calls s1
    ∧ wg s2 = wg s1.
Proof.
  intros Hchan Hpre Hsub Hopen.
  assert (Hstops : stops
            (set_subscriptions (alter stop_subscription (wid watcher))
               (set_logs (λ ls, ls ++ [(DebugLevel, "closing the job watcher")])
                  (set_logs (λ ls, ls ++ [(DebugLevel, "job deleted; name: [ %s ]")])
                     (set_logs
                        (λ ls, ls ++ [(DebugLevel,
                           "received JOB event with payload type [ %s ]")])
                        s1)))) (wid watcher) = 1).
  { rewrite stops_after_Stop by done. f_equal.
    exact (stopped_false_stops _ _ Hopen). }
  eexists. split.
  - rewrite (JobEvents_after _ _ _ _ _ _ Hchan Hpre Hopen).
    unfold JobEvents, job_loop. rewrite exec_mbind. simpl ResultChan.
    rewrite exec_ForRange_cons. cbn [wid].
    rewrite Hopen, exec_mbind, handleJobEvent_deleted.
    cbv beta iota. rewrite exec_Ret. cbv beta iota.
    rewrite exec_ForRange_stopped.
    + cbn. reflexivity.
    + apply stopped_true_stops. cbn [wid]. rewrite Hstops. lia.
  - split; [exact Hstops|]. done.
Qed.

Lemma job_deleted_ends_run_witness :
  ∃ s2,
    exec (JobEvents sample_plugin
            (job_watcher [job_event Deleted 0 0; job_event Modified 1 0]))
         (watching_world plain_cluster) = Done None s2
    ∧ stops s2 0 = 1.
Proof.
  edestruct (job_deleted_ends_run sample_plugin
               (job_watcher [job_event Deleted 0 0; job_event Modified 1 0])
               (reported_job 0 0) [] [job_event Modified 1 0]
               (watching_world plain_cluster))
    as (s2 & Hrun & Hstops & _).
  - reflexivity.
  - reflexivity.
  - simpl. lia.
  - reflexivity.
  - exists s2. split; [exact Hrun|exact Hstops].
Defined.

(** A job result channel that the server closes without a terminal event
    (every event delivered is one that is only logged, or none at all)
    makes [JobEvents] return nil, as a succeeded job does, with nothing
    stopped, spawned or asked of the cluster. *)
Theorem JobEvents_closed_channel_is_success (p : Plugin) (watcher : Watcher)
    (s : World) :
  Forall only_logged (ResultChan watcher) →
  ∃ s',
    exec (JobEvents p watcher) s = Done None s'
    ∧ same_state s s'
    ∧ last (logs s') = Some (DebugLevel, "job [%s] succeeded").
Proof.
  intros Hevs. unfold JobEvents. rewrite exec_mbind.
  assert (Hloop : ∃ s1,
    exec (job_loop p watcher (ResultChan watcher)) s = Done None s1
    ∧ same_state s s1).
  { revert s. induction Hevs as [|ev evs Hev _ IH]; intros s.
    - exists s. split; [done|apply same_state_refl].
    - unfold job_loop in *. rewrite exec_ForRange_cons.
      destruct (stopped s (wid watcher));
        [exists s; split; [done|apply same_state_refl]|].
      destruct Hev as (type & job & -> & Hm & Hd).
      destruct (handleJobEvent_only_logs p type job watcher s Hm Hd)
        as (s1 & Hrun & Hsame & _).
      rewrite exec_mbind, Hrun. cbv beta iota. rewrite exec_Ret.
      destruct (IH s1) as (s2 & Hrun2 & Hsame2).
      exists s2. split; [done|]. by eapply same_state_trans. }
  destruct Hloop as (s1 & -> & Hsame). cbn. eexists. split; [reflexivity|].
  split; [exact Hsame|]. simpl. apply last_snoc.
Qed.

Lemma JobEvents_closed_channel_is_success_witness :
  ∃ s',
    exec (JobEvents sample_plugin (job_watcher [job_event Added 0 0]))
         (watching_world plain_cluster) = Done None s'
    ∧ same_state (watching_world plain_cluster) s'.
Proof.
  destruct (JobEvents_closed_channel_is_success sample_plugin
              (job_watcher [job_event Added 0 0])
              (watching_world plain_cluster)) as (s' & Hrun & Hsame & _).
  - repeat constructor. exists Added, (reported_job 0 0).
    split; [reflexivity|]. split; discriminate.
  - exists s'. split; [exact Hrun|exact Hsame].
Defined.

(** A pod Deleted event ends [PodEvents]: the pod subscription is stopped
    once, the pod flag is cleared, and the events behind it, Modified ones
    too, are not handled. *)
Theorem pod_deleted_ends_pod_watcher (p : Plugin) (watcher : Watcher)
    (pod : Pod) (rest : list Event) (s : World) :
  ResultChan watcher
  = {| e_Type := Deleted; e_Object := ObjPod pod |} :: rest →
  wid watcher < length (subscriptions s) →
  stopped s (wid watcher) = false →
  ∃ s',
    exec (PodEvents p watcher) s = Done () s'
    ∧ stops s' (wid watcher) = 1
    ∧ status s' PodWatcherStatusKey = false
    ∧ goroutines s' = goroutines s
    ∧ wg s' = wg s.
Proof.
  intros Hchan Hsub Hopen.
  destruct (handlePodEvent_deleted p watcher pod s Hsub)
    as (s1 & Hrun & Hflag & Hstops & Hgo & Hwg).
  exists s1. split.
  - unfold PodEvents, pod_loop.
    rewrite exec_mbind, Hchan, exec_ForRange_cons, Hopen, exec_mbind, Hrun.
    cbv beta iota. rewrite exec_Ret. cbv beta iota.
    rewrite exec_ForRange_stopped; [done|].
    apply stopped_true_stops. rewrite Hstops. lia.
  - rewrite Hstops, (stopped_false_stops _ _ Hopen). done.
Qed.

Lemma pod_deleted_ends_pod_watcher_witness :
  ∃ s',
    exec (PodEvents sample_plugin
            {| wid := 0;
               ResultChan := [pod_event Deleted "pod-1";
                              pod_event Modified "pod-1"] |})
         (watching_world plain_cluster) = Done () s'
    ∧ goroutines s' = [].
Proof.
  destruct (pod_deleted_ends_pod_watcher sample_plugin
              {| wid := 0;
                 ResultChan := [pod_event Deleted "pod-1";
                                pod_event Modified "pod-1"] |}
              {| p_Name := "pod-1"; p_Phase := "Running" |}
              [pod_event Modified "pod-1"]
              (watching_world plain_cluster))
    as (s' & Hrun & _ & _ & Hgo & _).
  - reflexivity.
  - simpl. lia.
  - reflexivity.
  - exists s'. split; [exact Hrun|exact Hgo].
Defined.

(** ** The log stream *)

(** [WatchLogs] on a stream that opens, with a task to account for in the
    WaitGroup, asks the cluster once for the log of the pod in following
    mode, writes what the stream delivers to the standard output, has the
    log flag off again at its end, and closes the reader it opened;
    whether the copy ended with an error makes no difference. *)
Theorem WatchLogs_copies_the_log (p : Plugin) (podName : string)
    (data : string * option error) (s : World) :
  k_getLogs (cluster s) (length (calls s)) (Namespace p) podName = OK data →
  (1 ≤ wg s)%Z →
  ∃ s',
    exec (WatchLogs p podName) s = Done () s'
    ∧ calls s' = calls s ++ [CallGetLogs (Namespace p) podName true]
    ∧ stdout s' = stdout s ++ [data.1]
    ∧ readers s' = readers s ++ [true]
    ∧ status s' LogWatcherStatusKey = false
    ∧ (InfoLevel, "***** streaming the logs for pod [ %s ] *****") ∈ logs s'
    ∧ (InfoLevel, "***** end of the logs for pod [ %s ] *****") ∈ logs s'.
Proof.
  intros Hlogs Hwg. eexists. split.
  - unfold WatchLogs. cbn. rewrite Hlogs. cbn.
    rewrite bool_decide_false by lia. cbn. reflexivity.
  - cbn. split; [done|]. split; [done|]. split.
    { rewrite insert_app_r_alt by done. by rewrite Nat.sub_diag. }
    split; [unfold status; simpl; by rewrite lookup_insert_eq|].
    split; rewrite !elem_of_app, !list_elem_of_singleton; tauto.
Qed.

Lemma WatchLogs_copies_the_log_witness :
  ∃ s',
    exec (WatchLogs sample_plugin "pod-1")
         (set_wg (λ _, 1%Z)
            (init_world (scenario_cluster [] (OK [])
                           (OK ("hello Kubernauts!", Some "unexpected EOF")))))
    = Done () s'
    ∧ stdout s' = ["hello Kubernauts!"].
Proof.
  destruct (WatchLogs_copies_the_log sample_plugin "pod-1"
              ("hello Kubernauts!", Some "unexpected EOF")
              (set_wg (λ _, 1%Z)
                 (init_world (scenario_cluster [] (OK [])
                    (OK ("hello Kubernauts!", Some "unexpected EOF"))))))
    as (s' & Hrun & _ & Hout & _).
  - reflexivity.
  - simpl. lia.
  - exists s'. split; [exact Hrun|exact Hout].
Defined.



(** ** Opening the job watch *)

(** [WatchJob] asks for a watch on the jobs of the namespace with the
    selector "label-name=<value of that label>" and the watch option on.
    When the watch opens it returns the subscription, which is the newest
    one and is not stopped, and sets the job flag; when it does not, it
    returns the error, clears the job flag and opens nothing. *)
Theorem WatchJob_opens_or_fails (p : Plugin) (s : World) :
  let options := {| lo_Watch := true;
                    lo_LabelSelector :=
                      "label-name=" +:+ default "" (LabelSelector p !! "label-name") |} in
  match k_watchJobs (cluster s) (length (calls s)) (Namespace p) options with
  | OK evs =>
      ∃ s',
        exec (WatchJob p) s
        = Done (OK {| wid := length (subscriptions s); ResultChan := evs |}) s'
        ∧ status s' JobWatcherStatusKey = true
        ∧ subscriptions s'
          = subscriptions s ++ [{| s_kind := JobsKind; s_stops := 0 |}]
        ∧ calls s' = calls s ++ [CallWatchJobs (Namespace p) options]
  | Err e =>
      ∃ s',
        exec (WatchJob p) s = Done (Err e) s'
        ∧ status s' JobWatcherStatusKey = false
        ∧ subscriptions s' = subscriptions s
        ∧ calls s' = calls s ++ [CallWatchJobs (Namespace p) options]
  end.
Proof.
  intros options. unfold options.
  change ("label-name=" +:+ default "" (LabelSelector p !! "label-name"))
    with (selector p).
  destruct (k_watchJobs _ _ _ _) as [evs|e] eqn:Hwatch.
  - eexists. split.
    + unfold WatchJob. cbn. rewrite Hwatch. cbn. reflexivity.
    + split; [apply status_insert|done].
  - eexists. split.
    + unfold WatchJob. cbn. rewrite Hwatch. cbn. reflexivity.
    + split; [apply status_insert|done].
Qed.

(** ** Decorating the job *)

(** [DecorateJob] is idempotent: decorating the job it returned returns
    the same job. *)
Theorem DecorateJob_idempotent (p : Plugin) (job job1 : Job) (s s1 : World) :
  exec (DecorateJob p job) s = Done (OK job1) s1 →
  ∃ s2, exec (DecorateJob p job1) s1 = Done (OK job1) s2.
Proof.
  intros Hrun. destruct (decide (0 < len (OriginalCommands p))) as [Hlen|Hlen].
  - destruct (Containers (t_Spec (j_Template job))) as [|c cs] eqn:Hcs.
    + unfold DecorateJob in Hrun.
      rewrite (bool_decide_true (0 < len (OriginalCommands p))) in Hrun by lia.
      rewrite bool_decide_true in Hrun
        by (destruct (OriginalCommands p); [done|simpl in Hlen; lia]).
      by rewrite Hcs in Hrun.
    + rewrite (exec_DecorateJob_command p job c cs s Hlen Hcs) in Hrun.
      injection Hrun as <- <-. eexists.
      rewrite (exec_DecorateJob_command p _
                 (set_command (Some ["sh"; "-c"]) (OriginalCommands p) c)
                 cs _ Hlen) by reflexivity.
      reflexivity.
  - rewrite exec_DecorateJob_plain in Hrun by lia. injection Hrun as <- <-.
    exists s. apply exec_DecorateJob_plain. lia.
Qed.

Lemma DecorateJob_idempotent_witness :
  ∃ job1 s1 s2,
    exec (DecorateJob sample_plugin sample_job) (init_world plain_cluster)
    = Done (OK job1) s1
    ∧ exec (DecorateJob sample_plugin job1) s1 = Done (OK job1) s2.
Proof.
  destruct (exec (DecorateJob sample_plugin sample_job)
              (init_world plain_cluster)) as [[job1|e] s1|s1|msg s1] eqn:Hrun.
  - destruct (DecorateJob_idempotent _ _ _ _ _ Hrun) as [s2 Hagain].
    exists job1, s1, s2. split; [reflexivity|exact Hagain].
  - vm_compute in Hrun. discriminate.
  - vm_compute in Hrun. discriminate.
  - vm_compute in Hrun. discriminate.
Defined.

(** With an override command and a job that has no container,
    [DecorateJob] panics on the index of the first container. *)
Theorem DecorateJob_without_container_panics (p : Plugin) (job : Job)
    (s : World) :
  0 < len (OriginalCommands p) →
  Containers (t_Spec (j_Template job)) = [] →
  ∃ msg, exec (DecorateJob p job) s = Panicked msg s.
Proof.
  intros Hlen Hcs. unfold DecorateJob.
  rewrite (bool_decide_true (0 < len (OriginalCommands p))) by lia.
  rewrite bool_decide_true
    by (destruct (OriginalCommands p); [done|simpl in Hlen; lia]).
  rewrite Hcs. eauto.
Qed.

Lemma DecorateJob_without_container_panics_witness :
  ∃ msg,
    exec (DecorateJob sample_plugin (reported_job 0 0))
         (init_world plain_cluster)
    = Panicked msg (init_world plain_cluster).
Proof.
  apply (DecorateJob_without_container_panics sample_plugin
           (reported_job 0 0) (init_world plain_cluster)).
  - simpl. lia.
  - reflexivity.
Defined.

(** ** The steps of [run] before [JobEvents] *)

(** Without a kube config [run] returns the error after that one call,
    its last log line the error line; with a config and without a client
    it returns the client's error after those two calls. *)
Theorem run_without_client (kubeConfigPath : string) (p : Plugin) (s : World) :
  (∀ e,
     k_buildConfig (cluster s) (length (calls s)) kubeConfigPath = Some e →
     ∃ s',
       exec (run kubeConfigPath p) s = Done (Some e) s'
       ∧ calls s' = calls s ++ [CallBuildConfig kubeConfigPath]
       ∧ last (logs s')
         = Some (ErrorLevel, "could not build kubeconfig. err: %s")
       ∧ subscriptions s' = subscriptions s)
  ∧ (∀ e,
       k_buildConfig (cluster s) (length (calls s)) kubeConfigPath = None →
       k_newForConfig (cluster s) (S (length (calls s))) = Some e →
       ∃ s',
         exec (run kubeConfigPath p) s = Done (Some e) s'
         ∧ calls s'
           = calls s ++ [CallBuildConfig kubeConfigPath; CallNewForConfig]
         ∧ last (logs s') = Some (ErrorLevel, "could not get client set  %s")
         ∧ subscriptions s' = subscriptions s).
Proof.
  split.
  - intros e Hconfig. eexists. split.
    + unfold run. cbn. rewrite Hconfig. cbn. reflexivity.
    + cbn. split; [done|]. split; [apply last_snoc|done].
  - intros e Hconfig Hclient. eexists. split.
    + unfold run. cbn. rewrite Hconfig. cbn.
      rewrite length_app, Nat.add_1_r, Hclient. cbn. reflexivity.
    + cbn. split; [by rewrite <- app_assoc|].
      split; [apply last_snoc|done].
Qed.

Lemma run_without_client_witness :
  ∃ s',
    exec (run "/tmp/.kube/config" sample_plugin)
         (init_world (setup_cluster (Some "no such file") None None
                        (OK []) None))
    = Done (Some "no such file") s'
    ∧ calls s' = [CallBuildConfig "/tmp/.kube/config"].
Proof.
  destruct (proj1 (run_without_client "/tmp/.kube/config" sample_plugin
                     (init_world (setup_cluster (Some "no such file") None
                                    None (OK []) None)))
              "no such file" eq_refl)
    as (s' & Hrun & Hcalls & _).
  exists s'. split; [exact Hrun|exact Hcalls].
Defined.

(** With a client, [run] returns the error of [CreateOrGetPVC] or of
    [WatchJob] at once: no call, no subscription and no task after the
    failed step. *)
Theorem run_without_watch (kubeConfigPath : string) (p : Plugin)
    (s s1 s2 : World) :
  exec (call (BuildConfigFromFlags kubeConfigPath)) s = Done None s1 →
  exec (call NewForConfig) s1 = Done None s2 →
  (∀ e s3,
     exec (CreateOrGetPVC p) s2 = Done (Err e) s3 →
     ∃ s',
       exec (run kubeConfigPath p) s = Done (Some e) s'
       ∧ calls s' = calls s3
       ∧ subscriptions s' = subscriptions s3
       ∧ goroutines s' = goroutines s3
       ∧ last (logs s')
         = Some (ErrorLevel, "could not create PVC. err [ %s ]"))
  ∧ (∀ claim s3 e s4,
       exec (CreateOrGetPVC p) s2 = Done (OK claim) s3 →
       exec (WatchJob p) s3 = Done (Err e) s4 →
       ∃ s',
         exec (run kubeConfigPath p) s = Done (Some e) s'
         ∧ calls s' = calls s4
         ∧ subscriptions s' = subscriptions s4
         ∧ goroutines s' = goroutines s4
         ∧ last (logs s')
           = Some (ErrorLevel, "could not watch jobs. err [ %s ]")).
Proof.
  intros H1 H2. split.
  - intros e s3 H3. eexists. split.
    + unfold run. rewrite exec_mbind, H1, exec_mbind, H2, exec_mbind, H3.
      cbn. reflexivity.
    + cbn. repeat (split; [done|]). apply last_snoc.
  - intros claim s3 e s4 H3 H4. eexists. split.
    + unfold run.
      rewrite exec_mbind, H1, exec_mbind, H2, exec_mbind, H3, exec_mbind, H4.
      cbn. reflexivity.
    + cbn. repeat (split; [done|]). apply last_snoc.
Qed.

Lemma run_without_watch_witness :
  ∃ s',
    exec (run "/tmp/.kube/config" sample_plugin)
         (init_world (setup_cluster None None None (Err "forbidden") None))
    = Done (Some "forbidden") s'
    ∧ subscriptions s' = []
    ∧ goroutines s' = [].
Proof.
  refine (match proj2 (run_without_watch "/tmp/.kube/config" sample_plugin
                         (init_world (setup_cluster None None None
                                        (Err "forbidden") None))
                         _ _ eq_refl eq_refl)
                      _ _ "forbidden" _ _ _ with
          | ex_intro _ s' (conj Hrun (conj _ (conj Hsubs (conj Hgo _)))) => _
          end).
  - vm_compute. reflexivity.
  - vm_compute. reflexivity.
  - exists s'. split; [exact Hrun|]. split.
    + rewrite Hsubs. reflexivity.
    + rewrite Hgo. reflexivity.
Defined.

(** When the job is not created, [run] stops the job watcher it opened and
    returns the error of [CreateJob]: no log line of its own, no event
    handled, nothing spawned, no wait and no cleanup. *)
Theorem run_job_not_created (kubeConfigPath : string) (p : Plugin)
    (s s1 s2 s3 s4 s5 : World) (claim : PersistentVolumeClaim)
    (jobWatcher : Watcher) (e : error) :
  exec (call (BuildConfigFromFlags kubeConfigPath)) s = Done None s1 →
  exec (call NewForConfig) s1 = Done None s2 →
  exec (CreateOrGetPVC p) s2 = Done (OK claim) s3 →
  exec (WatchJob p) s3 = Done (OK jobWatcher) s4 →
  exec (CreateJob p) s4 = Done (Some e) s5 →
  ∃ s',
    exec (run kubeConfigPath p) s = Done (Some e) s'
    ∧ subscriptions s'
      = alter stop_subscription (wid jobWatcher) (subscriptions s5)
    ∧ calls s' = calls s5
    ∧ logs s' = logs s5
    ∧ goroutines s' = goroutines s5
    ∧ wg s' = wg s5.
Proof.
  intros H1 H2 H3 H4 H5. eexists. split.
  - unfold run.
    rewrite exec_mbind, H1, exec_mbind, H2, exec_mbind, H3, exec_mbind, H4.
    rewrite exec_mbind, H5. cbn. reflexivity.
  - done.
Qed.

Lemma run_job_not_created_witness :
  ∃ s',
    exec (run "/tmp/.kube/config" sample_plugin)
         (init_world (setup_cluster None None None
                        (OK [job_event Modified 0 1]) (Some "forbidden")))
    = Done (Some "forbidden") s'
    ∧ stops s' 0 = 1
    ∧ goroutines s' = [].
Proof.
  refine (match run_job_not_created "/tmp/.kube/config" sample_plugin
                  (init_world (setup_cluster None None None
                                 (OK [job_event Modified 0 1])
                                 (Some "forbidden")))
                  _ _ _ _ _ _ _ "forbidden" eq_refl eq_refl _ _ _ with
          | ex_intro _ s' (conj Hrun (conj Hsubs (conj _ (conj _ (conj Hgo _)))))
            => _
          end).
  - vm_compute. reflexivity.
  - vm_compute. reflexivity.
  - vm_compute. reflexivity.
  - exists s'. split; [exact Hrun|]. split.
    + unfold stops. rewrite Hsubs. reflexivity.
    + rewrite Hgo. reflexivity.
Defined.

(** ** Deleting *)

(** [DeleteJob] issues one deletion of the job of the plugin with a grace
    period of 2 seconds and returns what the cluster answers; it logs at
    debug level when the job is deleted and nothing when it is not. *)
Theorem DeleteJob_one_call (p : Plugin) (s : World) :
  let answer :=
    k_deleteJob (cluster s) (length (calls s)) (Namespace p) (JobName p) in
  ∃ s',
    exec (DeleteJob p) s = Done answer s'
    ∧ calls s' = calls s ++ [CallDeleteJob (Namespace p) (JobName p) 2]
    ∧ logs s'
      = logs s ++ match answer with
                  | None => [(DebugLevel, "deleted job: [ %s ]")]
                  | Some _ => []
                  end
    ∧ subscriptions s' = subscriptions s
    ∧ wg s' = wg s.
Proof.
  intros answer. unfold answer, DeleteJob. cbn.
  destruct (k_deleteJob _ _ _ _); cbn; eexists; (split; [reflexivity|]).
  - cbn. by rewrite app_nil_r.
  - done.
Qed.

(** [DeletePVC] issues one deletion of the workspace claim with a grace
    period of 2 seconds and returns what the cluster answers, with an
    error line when the claim is not deleted. *)
Theorem DeletePVC_one_call (p : Plugin) (s : World) :
  let answer :=
    k_deletePVC (cluster s) (length (calls s)) (Namespace p)
      (WorkspacePVC p) in
  ∃ s',
    exec (DeletePVC p) s = Done answer s'
    ∧ calls s' = calls s ++ [CallDeletePVC (Namespace p) (WorkspacePVC p) 2]
    ∧ logs s'
      = logs s ++ match answer with
                  | None => [(DebugLevel, "deleted PVC: [ %s ]")]
                  | Some _ =>
                      [(ErrorLevel, "could not delete pvc:[ %s ], error: %s")]
                  end.
Proof.
  intros answer. unfold answer, DeletePVC. cbn.
  destruct (k_deletePVC _ _ _ _); cbn; eexists; (split; [reflexivity|done]).
Qed.

(** ** Opening the pod watch *)

(** [WatchPod] asks for the pods of the namespace with the same selector
    as [WatchJob] and the watch option left off.  When the watch opens it
    returns the subscription, the newest one, and sets the pod flag; when
    it does not, it returns the error, clears the pod flag and opens
    nothing. *)
Theorem WatchPod_opens_or_fails (p : Plugin) (s : World) :
  let options := {| lo_Watch := false;
                    lo_LabelSelector :=
                      "label-name=" +:+ default "" (LabelSelector p !! "label-name") |} in
  match k_watchPods (cluster s) (length (calls s)) (Namespace p) options with
  | OK evs =>
      ∃ s',
        exec (WatchPod p) s
        = Done (OK {| wid := length (subscriptions s); ResultChan := evs |}) s'
        ∧ status s' PodWatcherStatusKey = true
        ∧ subscriptions s'
          = subscriptions s ++ [{| s_kind := PodsKind; s_stops := 0 |}]
        ∧ calls s' = calls s ++ [CallWatchPods (Namespace p) options]
        ∧ wg s' = wg s
        ∧ goroutines s' = goroutines s
  | Err e =>
      ∃ s',
        exec (WatchPod p) s = Done (Err e) s'
        ∧ status s' PodWatcherStatusKey = false
        ∧ subscriptions s' = subscriptions s
        ∧ calls s' = calls s ++ [CallWatchPods (Namespace p) options]
        ∧ wg s' = wg s
        ∧ goroutines s' = goroutines s
  end.
Proof.
  intros options. unfold options.
  change ("label-name=" +:+ default "" (LabelSelector p !! "label-name"))
    with (selector p).
  destruct (k_watchPods _ _ _ _) as [evs|e] eqn:Hwatch.
  - eexists. split.
    + unfold WatchPod. cbn. rewrite Hwatch. cbn. reflexivity.
    + split; [apply status_insert|done].
  - eexists. split.
    + unfold WatchPod. cbn. rewrite Hwatch. cbn. reflexivity.
    + split; [apply status_insert|done].
Qed.

(** ** The deferred close *)

(** When the stream opened, [WatchLogs] closes it however the task ends:
    after [Done], and also when [Done] panics. *)
Theorem WatchLogs_closes_the_stream (p : Plugin) (podName : string)
    (data : string * option error) (s : World) :
  k_getLogs (cluster s) (length (calls s)) (Namespace p) podName = OK data →
  ∃ s',
    (exec (WatchLogs p podName) s = Done () s'
     ∨ exec (WatchLogs p podName) s
       = Panicked "sync: negative WaitGroup counter" s')
    ∧ readers s' = readers s ++ [true]
    ∧ stdout s' = stdout s ++ [data.1].
Proof.
  intros Hlogs. destruct (decide (wg s + -1 < 0)%Z) as [Hwg|Hwg].
  - eexists. split.
    + right. unfold WatchLogs. cbn. rewrite Hlogs. cbn.
      rewrite bool_decide_true by done. reflexivity.
    + cbn. split; [|done].
      rewrite insert_app_r_alt by done. by rewrite Nat.sub_diag.
  - eexists. split.
    + left. unfold WatchLogs. cbn. rewrite Hlogs. cbn.
      rewrite bool_decide_false by done. reflexivity.
    + cbn. split; [|done].
      rewrite insert_app_r_alt by done. by rewrite Nat.sub_diag.
Qed.

Lemma WatchLogs_closes_the_stream_witness :
  ∃ s',
    (exec (WatchLogs sample_plugin "pod-1") (init_world plain_cluster)
     = Done () s'
     ∨ exec (WatchLogs sample_plugin "pod-1") (init_world plain_cluster)
       = Panicked "sync: negative WaitGroup counter" s')
    ∧ readers s' = [true].
Proof.
  destruct (WatchLogs_closes_the_stream sample_plugin "pod-1"
              ("hello Kubernauts!", None) (init_world plain_cluster) eq_refl)
    as (s' & Hrun & Hreaders & _).
  exists s'. split; [exact Hrun|exact Hreaders].
Defined.
